(** * A caching reverse proxy (Cloudflare Worker over an R2 bucket)

    Shallow embedding of [src/cloudflare_cache.js] and of its near-duplicate
    [src/unnamed/part_000]: the hasher, the cache-key builder and the
    [fetch] handler with its lookup / forward / store protocol.

    Conventions of the embedding.
    - A JavaScript string is a [string]; each character is one code unit in
      the range 0..255 (header values are byte strings).
    - A JavaScript number that holds an integer is a [Z]; [NaN] is [None]
      in the result of [parseInt].  Epoch milliseconds and HTTP statuses
      are far below 2^53, where the arithmetic of doubles on integers is
      exact.  A TTL is read from a header and may be any number of digits:
      the statements about the expiration computed from a TTL are made
      under [exactExpiration], which keeps [now + ttl * 1000] within the
      safe integers.
    - An [ArrayBuffer] is a [list byte].
    - A [Headers] object and the plain object [headersToStore] are both a
      [gmap string string] from lower-case names to (combined) values.
      Several [Set-Cookie] lines, which a [Headers] object keeps apart and
      of which [headersToStore] keeps the last, have no counterpart, and
      neither has the key [__proto__], which creates no property of
      [headersToStore]: the statements about stored headers leave these two
      names out ([isCopiedHeader]).
    - Everything the handler does to the outside world (bucket get, origin
      fetch, tasks handed to [ctx.waitUntil]) is recorded, in program order,
      in a list of [Event]s returned next to the response.
    - The platform is a [Runtime]: the SHA-256 digest, the origin behind the
      global [fetch], and the clock.  Nothing is assumed about them.
    - Console output is left out, and so is [logRequestDetails], whose only
      call is commented out.
    - [fetch] is the handler for an origin URL from which [new Request]
      builds the outbound request; [fetch_checked] is the handler without
      this convention, where building the outbound request may throw. *)

From Stdlib Require Import ZArith Lia Bool Ascii String.
From Stdlib.Strings Require Import Byte.
From stdpp Require Import gmap strings list.

Local Open Scope string_scope.
Local Open Scope list_scope.
Local Open Scope Z_scope.

(** ** JavaScript string primitives used by the worker *)

Definition code (c : ascii) : Z := Z.of_N (Ascii.N_of_ascii c).

Definition in_range (lo hi n : Z) : bool := (lo <=? n) && (n <=? hi).

(** [String.prototype.toLowerCase] on code units 0..255: A-Z and the
    Latin-1 capitals U+00C0..U+00DE (without the multiplication sign U+00D7)
    move up by 32. *)
Definition lower_char (c : ascii) : ascii :=
  let n := code c in
  if in_range 65 90 n || (in_range 192 222 n && negb (n =? 215))
  then Ascii.ascii_of_N (Z.to_N (n + 32))
  else c.

Fixpoint toLowerCase (s : string) : string :=
  match s with
  | EmptyString => EmptyString
  | String c s' => String (lower_char c) (toLowerCase s')
  end.

(** [s.startsWith(p)] *)
Definition startsWith (s p : string) : bool := String.prefix p s.

(** [s.includes(sub)] *)
Fixpoint includes (s sub : string) : bool :=
  startsWith s sub ||
  match s with
  | EmptyString => false
  | String _ s' => includes s' sub
  end.

(** The text before the first [sep] (all of [s] when there is none). *)
Fixpoint takeUntil (sep : ascii) (s : string) : string :=
  match s with
  | EmptyString => EmptyString
  | String c s' => if Ascii.eqb c sep then EmptyString else String c (takeUntil sep s')
  end.

(** The text after the first [sep]; [None] when [sep] does not occur. *)
Fixpoint dropThrough (sep : ascii) (s : string) : option string :=
  match s with
  | EmptyString => None
  | String c s' => if Ascii.eqb c sep then Some s' else dropThrough sep s'
  end.

(** [s.split('=')[1]]: the second field, [None] for [undefined]. *)
Definition split_eq_1 (s : string) : option string :=
  takeUntil "=" <$> dropThrough "=" s.

Definition isDigit (c : ascii) : bool := in_range 48 57 (code c).

Fixpoint takeWhile (p : ascii → bool) (s : string) : string :=
  match s with
  | EmptyString => EmptyString
  | String c s' => if p c then String c (takeWhile p s') else EmptyString
  end.

(** [s] with the prefix [p] removed, [None] when [p] is not a prefix. *)
Fixpoint stripPrefix (p s : string) : option string :=
  match p, s with
  | EmptyString, _ => Some s
  | String a p', String b s' => if Ascii.eqb a b then stripPrefix p' s' else None
  | String _ _, EmptyString => None
  end.

(** [s.match(/max-age=(\d+)/)]: capture group 1 of the leftmost match,
    [None] when the regular expression does not match. *)
Fixpoint match_max_age (s : string) : option string :=
  let here :=
    match stripPrefix "max-age=" s with
    | Some rest =>
        match takeWhile isDigit rest with
        | EmptyString => None
        | digits => Some digits
        end
    | None => None
    end in
  match here with
  | Some digits => Some digits
  | None =>
      match s with
      | EmptyString => None
      | String _ s' => match_max_age s'
      end
  end.

(** *** [parseInt] (radix argument omitted) *)

(** White space skipped by [parseInt], on code units 0..255:
    TAB, LF, VT, FF, CR, SP and NBSP. *)
Definition isStrWhiteSpaceChar (c : ascii) : bool :=
  let n := code c in in_range 9 13 n || (n =? 32) || (n =? 160).

Fixpoint trimStart (s : string) : string :=
  match s with
  | String c s' => if isStrWhiteSpaceChar c then trimStart s' else s
  | EmptyString => EmptyString
  end.

Definition digitValue (radix : Z) (c : ascii) : option Z :=
  let n := code c in
  let v := if in_range 48 57 n then Some (n - 48)
           else if in_range 97 122 n then Some (n - 87)
           else if in_range 65 90 n then Some (n - 55)
           else None in
  match v with
  | Some d => if d <? radix then Some d else None
  | None => None
  end.

(** The longest prefix of radix-[radix] digits, as a number; [acc] is [None]
    until the first digit has been read. *)
Fixpoint parseDigits (radix : Z) (s : string) (acc : option Z) : option Z :=
  match s with
  | EmptyString => acc
  | String c s' =>
      match digitValue radix c with
      | Some d => parseDigits radix s' (Some (default 0 acc * radix + d))
      | None => acc
      end
  end.

Definition parseInt (input : string) : option Z :=
  let s := trimStart input in
  let '(sign, s) :=
    match s with
    | String "-" r => (-1, r)
    | String "+" r => (1, r)
    | _ => (1, s)
    end in
  let '(radix, s) :=
    match s with
    | String "0" (String "x" r) => (16, r)
    | String "0" (String "X" r) => (16, r)
    | _ => (10, s)
    end in
  Z.mul sign <$> parseDigits radix s None.

(** [parseInt(x) || d]: [NaN] and [0] are falsy. *)
Definition or_default (x : option Z) (d : Z) : Z :=
  match x with
  | Some n => if n =? 0 then d else n
  | None => d
  end.

(** *** [Number.prototype.toString] on integers

    The decimal notation, which is what [toString] prints of an integer
    below 10^21. *)

Definition digit_char (d : Z) : ascii := Ascii.ascii_of_N (Z.to_N (48 + d)).

Fixpoint decimal_digits (fuel : nat) (n : Z) (acc : string) : string :=
  match fuel with
  | O => acc
  | S fuel' =>
      let acc' := String (digit_char (n mod 10)) acc in
      if n <? 10 then acc' else decimal_digits fuel' (n / 10) acc'
  end.

Definition Number_toString (n : Z) : string :=
  let digits m := decimal_digits (S (Z.to_nat (Z.log2 m))) m "" in
  if n <? 0 then "-" +:+ digits (- n) else digits n.

(** ** Data model *)

(** Truthiness of an optional string: [undefined], [null] and [""] are falsy. *)
Definition truthy (o : option string) : bool :=
  match o with
  | Some s => negb (String.eqb s "")
  | None => false
  end.

(** [ToString] of an optional string ([undefined] prints as its name). *)
Definition ToString (o : option string) : string := default "undefined" o.

(** *** Headers *)

Abbreviation Headers := (gmap string string).

Definition Headers_get (h : Headers) (name : string) : option string :=
  h !! toLowerCase name.

Definition Headers_set (h : Headers) (name value : string) : Headers :=
  <[toLowerCase name := value]> h.

Definition Headers_delete (h : Headers) (name : string) : Headers :=
  delete (toLowerCase name) h.

Definition Headers_has (h : Headers) (name : string) : bool :=
  bool_decide (is_Some (Headers_get h name)).

(** *** Requests *)

Record URL := {
  href : string;      (* [url.toString()] *)
  pathname : string;
  search : string
}.

Inductive RequestBody :=
  | body_absent                      (* [request.body === null] *)
  | body_bytes (b : list byte)
  | body_unreadable.                 (* reading the stream rejects *)

(** [requestClone.arrayBuffer()]: [None] when the read throws. *)
Definition arrayBuffer (b : RequestBody) : option (list byte) :=
  match b with
  | body_absent => Some []
  | body_bytes bs => Some bs
  | body_unreadable => None
  end.

Record Request := {
  req_method : string;
  req_url : URL;
  req_headers : Headers;
  req_body : RequestBody
}.

(** *** Responses *)

Inductive ResponseBody :=
  | resp_null
  | resp_stream (content : option string).   (* [None]: reading fails *)

Record Response := {
  status : Z;
  statusText : string;
  resp_headers : Headers;
  resp_body : ResponseBody
}.

(** [response.text()]: [None] when the read throws. *)
Definition text (r : Response) : option string :=
  match resp_body r with
  | resp_null => Some ""
  | resp_stream content => content
  end.

Inductive BodyInit :=
  | init_null                          (* [null] or [undefined] *)
  | init_string (s : string)
  | init_stream (content : option string).

Definition body_of (r : Response) : BodyInit :=
  match resp_body r with
  | resp_null => init_null
  | resp_stream content => init_stream content
  end.

(** The null-body statuses of the Fetch standard. *)
Definition isNullBodyStatus (s : Z) : bool :=
  (s =? 101) || (s =? 103) || (s =? 204) || (s =? 205) || (s =? 304).

(** [new Response(body, {status, statusText, headers})], after the Fetch
    standard: a [RangeError] unless 200 <= status <= 599, a [TypeError] for a
    body with a null-body status; a string body brings its content type when
    the headers have none.  [None] stands for the exception. *)
Definition new_Response (body : BodyInit) (st : Z) (stText : string)
    (h : Headers) : option Response :=
  if negb (in_range 200 599 st) then None
  else
    match body with
    | init_null =>
        Some {| status := st; statusText := stText; resp_headers := h;
                resp_body := resp_null |}
    | init_string s =>
        if isNullBodyStatus st then None
        else Some {| status := st; statusText := stText;
                     resp_headers :=
                       if Headers_has h "Content-Type" then h
                       else <["content-type" := "text/plain;charset=UTF-8"]> h;
                     resp_body := resp_stream (Some s) |}
    | init_stream content =>
        if isNullBodyStatus st then None
        else Some {| status := st; statusText := stText; resp_headers := h;
                     resp_body := resp_stream content |}
    end.

(** *** The cache store (an R2 bucket) *)

(** The [body] property of a parsed entry. *)
Inductive StoredBody :=
  | body_text (s : string)             (* a JSON string *)
  | body_json (stringified : string)   (* another JSON value, by its [JSON.stringify] *)
  | body_missing.                      (* no such property *)

(** The value [dataToStore] that the worker serialises, and what
    [object.json()] gives back for an entry of the bucket.
    [JSON.parse (JSON.stringify d) = d] for such a value (strings, an
    integer, an object of strings), so the bucket is modelled as holding the
    value itself. *)
Record CachedResponseData := {
  cached_body : StoredBody;
  cached_status : Z;
  cached_headers : gmap string string
}.

Record R2Object := {
  json : option CachedResponseData;    (* [None]: [object.json()] throws *)
  customMetadata : option (gmap string string)
}.

Record R2Bucket := {
  objects : gmap string R2Object;
  get_rejects : bool                   (* the store is unreachable *)
}.

(** [await bucket.get(key)]: [None] when the call throws, [Some None] for
    [null]. *)
Definition R2Bucket_get (b : R2Bucket) (key : string) : option (option R2Object) :=
  if get_rejects b then None else Some (objects b !! key).

(** *** Environment, outside world and trace *)

Record Env := {
  ORIGIN_API_URL : option string;
  API_CACHE_BUCKET : option R2Bucket;
  OCP_APIM_Subscription_Key : option string
}.

Record OriginRequest := {
  or_url : string;
  or_method : string;
  or_headers : Headers;
  or_body : RequestBody;
  or_redirect : string
}.

Inductive FetchResult :=
  | fetch_rejects (message : string)   (* [fetch] throws [e] with [e.message] *)
  | fetch_resolves (r : Response).

Record Runtime := {
  SHA256 : list byte → list byte;      (* [crypto.subtle.digest('SHA-256', _)] *)
  origin_fetch : OriginRequest → FetchResult;
  now_lookup : Z;                      (* [new Date().getTime()] at the expiry check *)
  now_store : Z                        (* [new Date().getTime()] when storing *)
}.

Inductive Event :=
  | EGet (key : string)                (* [env.API_CACHE_BUCKET.get(cacheKey)] *)
  | EDelete (key : string)             (* [ctx.waitUntil(bucket.delete(cacheKey))] *)
  | EFetch (r : OriginRequest)         (* [fetch(originRequest)] *)
  | EPut (key : string) (data : CachedResponseData)
         (metadata : gmap string string).  (* [ctx.waitUntil(bucket.put(...))] *)

(** The two source files differ only in the default TTL and in whether the
    outbound headers go through [handleRequestHeaders]. *)
Record Variant := {
  DEFAULT_CACHE_TTL_SECONDS : Z;
  usesHandleRequestHeaders : bool
}.

Definition CACHE_CONTROL_HEADER : string := "cf-cache-control".

(** ** The hasher: [generateHash] *)

Inductive HashData :=
  | data_string (s : string)
  | data_buffer (b : list byte)
  | data_absent.                        (* [undefined] or [null] *)

(** [new TextEncoder().encode(s)] *)
Definition TextEncoder_encode (s : string) : list byte := list_byte_of_string s.

Definition hex_digit (n : Z) : ascii :=
  Ascii.ascii_of_N (Z.to_N (if n <? 10 then 48 + n else 87 + n)).

(** [b.toString(16).padStart(2, '0')] for a byte [b] *)
Definition hex_of_byte (b : byte) : string :=
  let n := Z.of_N (Byte.to_N b) in
  String (hex_digit (n / 16)) (String (hex_digit (n mod 16)) EmptyString).

(** [Array.from(bytes).map(hex).join('')] *)
Fixpoint hex_of_bytes (bs : list byte) : string :=
  match bs with
  | [] => EmptyString
  | b :: bs' => hex_of_byte b +:+ hex_of_bytes bs'
  end.

Definition generateHash (rt : Runtime) (data : HashData) : string :=
  let buffer :=
    match data with
    | data_string s => Some (TextEncoder_encode s)
    | data_buffer b => Some b
    | data_absent => None
    end in
  match buffer with
  | None | Some [] => "emptybody"
  | Some b => hex_of_bytes (SHA256 rt b)
  end.

(** ** The cache-key builder: [generateCacheKey] *)

Definition generateCacheKey (rt : Runtime) (request : Request) : string :=
  let key := req_method request +:+ ":" +:+ href (req_url request) in
  if String.eqb (req_method request) "POST" then
    match arrayBuffer (req_body request) with
    | Some bodyBuffer =>
        match bodyBuffer with
        | _ :: _ => key +:+ ":bodyHash=" +:+ generateHash rt (data_buffer bodyBuffer)
        | [] => key +:+ ":bodyHash=emptybody"
        end
    | None => key +:+ ":bodyHash=readerror"
    end
  else key.

(** ** Outbound headers *)

(** [handleRequestHeaders] of [cloudflare_cache.js] *)
Definition handleRequestHeaders (env : Env) (requestHeaders : Headers) : Headers :=
  let headerKey1 := "ocp-apim-subscription-key" in
  let subscriptionKeyValue := OCP_APIM_Subscription_Key env in
  let mutableHeaders := requestHeaders in
  let mutableHeaders := Headers_set mutableHeaders "ocp-apim-subscription-region" "japaneast" in
  let mutableHeaders := Headers_set mutableHeaders headerKey1 (ToString subscriptionKeyValue) in
  Headers_delete mutableHeaders "host".

Definition cloudflare_cache : Variant :=
  {| DEFAULT_CACHE_TTL_SECONDS := 2048000; usesHandleRequestHeaders := true |}.

Definition part_000 : Variant :=
  {| DEFAULT_CACHE_TTL_SECONDS := 360000; usesHandleRequestHeaders := false |}.

(** The headers of the outbound request: [handleRequestHeaders(env,
    request.headers)] in [cloudflare_cache.js]; the inbound headers followed
    by [originRequest.headers.delete('host')] in the unnamed file. *)
Definition originHeaders (v : Variant) (env : Env) (requestHeaders : Headers) : Headers :=
  if usesHandleRequestHeaders v then handleRequestHeaders env requestHeaders
  else Headers_delete requestHeaders "host".

(** ** The handler: [fetch] *)

Definition bypassCache (request : Request) : bool :=
  bool_decide (toLowerCase <$> Headers_get (req_headers request) CACHE_CONTROL_HEADER
               = Some "no-cache").

Definition forceCache (request : Request) : bool :=
  bool_decide (toLowerCase <$> Headers_get (req_headers request) CACHE_CONTROL_HEADER
               = Some "force-cache").

Definition isCacheableMethod (request : Request) : bool :=
  String.eqb (req_method request) "GET" || String.eqb (req_method request) "POST".

(** [expiration && new Date().getTime() > parseInt(expiration)] *)
Definition isExpired (expiration : option string) (now : Z) : bool :=
  truthy expiration &&
  match parseInt (ToString expiration) with
  | Some n => now >? n
  | None => false
  end.

(** The [expiration] metadata of a stored object:
    [object.customMetadata?.expiration]. *)
Definition expirationOf (object : R2Object) : option string :=
  customMetadata object ≫= (.!! "expiration").

(** The response built on the hit path; [None] when a constructor throws. *)
Definition hitResponse (cacheKey : string) (cachedResponseData : CachedResponseData)
    : option Response :=
  let headers := cached_headers cachedResponseData in
  let headers := Headers_set headers "X-Cache-Status" "HIT" in
  let headers := Headers_set headers "X-Cache-Key" cacheKey in
  let bodyContent :=
    match cached_body cachedResponseData with
    | body_text s => init_string s
    | body_json stringified => init_string stringified
    | body_missing => init_null
    end in
  new_Response bodyContent (cached_status cachedResponseData) "" headers.

(** Step 1, "Try to get from R2 Cache": [Some r] when the block returns
    [r], [None] when control falls through to the forwarding code (absent
    or expired entry, or an exception caught by the [try]). *)
Definition cacheLookup (rt : Runtime) (bucket : R2Bucket) (cacheKey : string)
    : option Response * list Event :=
  match R2Bucket_get bucket cacheKey with
  | None => (None, [EGet cacheKey])
  | Some None => (None, [EGet cacheKey])
  | Some (Some object) =>
      match json object with
      | None => (None, [EGet cacheKey])
      | Some cachedResponseData =>
          let expiration := expirationOf object in
          if isExpired expiration (now_lookup rt) then
            (None, [EGet cacheKey; EDelete cacheKey])
          else
            match hitResponse cacheKey cachedResponseData with
            | Some r => (Some r, [EGet cacheKey])
            | None => (None, [EGet cacheKey])
            end
      end
  end.

Definition originRequest (v : Variant) (env : Env) (originApiUrl : string)
    (request : Request) : OriginRequest :=
  {| or_url := originApiUrl +:+ pathname (req_url request) +:+ search (req_url request);
     or_method := req_method request;
     or_headers := originHeaders v env (req_headers request);
     or_body := req_body request;
     or_redirect := "manual" |}.

Definition shouldCache (request : Request) (responseToCache : Response) : bool :=
  let cacheControl := toLowerCase <$> Headers_get (resp_headers responseToCache) "Cache-Control" in
  let pragma := toLowerCase <$> Headers_get (resp_headers responseToCache) "Pragma" in
  (isCacheableMethod request || forceCache request) &&
  (200 <=? status responseToCache) && (status responseToCache <? 300) &&
  (negb (truthy cacheControl) ||
   (negb (includes (ToString cacheControl) "no-cache") &&
    negb (includes (ToString cacheControl) "no-store"))) &&
  (negb (truthy pragma) || negb (includes (ToString pragma) "no-cache")).

(** The local [ttl]; [None] stands for [NaN]. *)
Definition ttl (v : Variant) (request : Request) (responseToCache : Response)
    : option Z :=
  let cacheControl := toLowerCase <$> Headers_get (resp_headers responseToCache) "Cache-Control" in
  let customTtlHeader := Headers_get (req_headers request) CACHE_CONTROL_HEADER in
  if truthy customTtlHeader && startsWith (ToString customTtlHeader) "max-age=" then
    Some (or_default (parseInt (ToString (split_eq_1 (ToString customTtlHeader))))
                     (DEFAULT_CACHE_TTL_SECONDS v))
  else if truthy cacheControl && includes (ToString cacheControl) "max-age=" then
    match match_max_age (ToString cacheControl) with
    | Some digits => parseInt digits
    | None => Some (DEFAULT_CACHE_TTL_SECONDS v)
    end
  else Some (DEFAULT_CACHE_TTL_SECONDS v).

(** [expirationTimestamp.toString()] *)
Definition expirationString (now : Z) (ttl : option Z) : string :=
  match ttl with
  | Some t => Number_toString (now + t * 1000)
  | None => "NaN"
  end.

(** Step 3, "Try to Cache the Origin Response". *)
Definition cacheStore (v : Variant) (rt : Runtime) (cacheKey : string)
    (request : Request) (responseToCache : Response) : list Event :=
  if shouldCache request responseToCache && negb (bypassCache request) then
    match text responseToCache with
    | Some bodyText =>
        let headersToStore := resp_headers responseToCache in
        let dataToStore :=
          {| cached_body := body_text bodyText;
             cached_status := status responseToCache;
             cached_headers := headersToStore |} in
        [EPut cacheKey dataToStore
              {[ "expiration" := expirationString (now_store rt) (ttl v request responseToCache) ]}]
    | None => []
    end
  else [].

(** Step 4, "Return the Response (from Origin)". *)
Definition missResponse (cacheKey : string) (responseToReturn : Response)
    : option Response :=
  let finalResponseHeaders := resp_headers responseToReturn in
  let finalResponseHeaders := Headers_set finalResponseHeaders "X-Cache-Status" "MISS" in
  let finalResponseHeaders := Headers_set finalResponseHeaders "X-Cache-Key" cacheKey in
  new_Response (body_of responseToReturn) (status responseToReturn)
               (statusText responseToReturn) finalResponseHeaders.

(** Steps 2 to 4: forward to the origin, try to store, return. *)
Definition forward (v : Variant) (rt : Runtime) (env : Env) (originApiUrl : string)
    (cacheKey : string) (request : Request) : option Response * list Event :=
  let req := originRequest v env originApiUrl request in
  match origin_fetch rt req with
  | fetch_rejects message =>
      (new_Response (init_string ("Failed to fetch from origin: " +:+ message)) 502 "" ∅,
       [EFetch req])
  | fetch_resolves originResponse =>
      (missResponse cacheKey originResponse,
       EFetch req :: cacheStore v rt cacheKey request originResponse)
  end.

(** The exported handler.  The first component is the response the caller
    receives ([None]: an exception escapes the handler); the second is the
    trace. *)
Definition fetch (v : Variant) (rt : Runtime) (env : Env) (request : Request)
    : option Response * list Event :=
  let originApiUrl := ORIGIN_API_URL env in
  if negb (truthy originApiUrl) then
    (new_Response (init_string "Origin API URL not configured") 500 "" ∅, [])
  else
    match API_CACHE_BUCKET env with
    | None => (new_Response (init_string "R2 Bucket not bound") 500 "" ∅, [])
    | Some bucket =>
        let cacheKey := generateCacheKey rt request in
        let '(hit, lookupEvents) :=
          if negb (bypassCache request) && isCacheableMethod request
          then cacheLookup rt bucket cacheKey
          else (None, []) in
        match hit with
        | Some response => (Some response, lookupEvents)
        | None =>
            let '(response, events) :=
              forward v rt env (ToString originApiUrl) cacheKey request in
            (response, lookupEvents ++ events)
        end
    end.

(** The handler without the convention on the origin URL.  The outbound
    request is built outside every [try] (lines 213 to 218): when the
    platform refuses to build it ([constructs] is false: the URL does not
    parse, say), the [TypeError] escapes the handler, after the lookup and
    before any origin fetch. *)
Definition fetch_checked (constructs : OriginRequest → bool) (v : Variant)
    (rt : Runtime) (env : Env) (request : Request) : option Response * list Event :=
  let originApiUrl := ORIGIN_API_URL env in
  if negb (truthy originApiUrl) then
    (new_Response (init_string "Origin API URL not configured") 500 "" ∅, [])
  else
    match API_CACHE_BUCKET env with
    | None => (new_Response (init_string "R2 Bucket not bound") 500 "" ∅, [])
    | Some bucket =>
        let cacheKey := generateCacheKey rt request in
        let '(hit, lookupEvents) :=
          if negb (bypassCache request) && isCacheableMethod request
          then cacheLookup rt bucket cacheKey
          else (None, []) in
        match hit with
        | Some response => (Some response, lookupEvents)
        | None =>
            if constructs (originRequest v env (ToString originApiUrl) request) then
              let '(response, events) :=
                forward v rt env (ToString originApiUrl) cacheKey request in
              (response, lookupEvents ++ events)
            else (None, lookupEvents)
        end
    end.

(** ** Background tasks *)

(** The effect on the bucket of a task handed to [ctx.waitUntil], once it
    has completed. *)
Definition run_task (b : R2Bucket) (e : Event) : R2Bucket :=
  match e with
  | EPut key data metadata =>
      {| objects := <[key := {| json := Some data; customMetadata := Some metadata |}]> (objects b);
         get_rejects := get_rejects b |}
  | EDelete key =>
      {| objects := delete key (objects b); get_rejects := get_rejects b |}
  | EGet _ | EFetch _ => b
  end.

Definition settle (b : R2Bucket) (events : list Event) : R2Bucket :=
  fold_left run_task events b.

(** ** Observations on a trace *)

Definition isFetch (e : Event) : bool := if e is EFetch _ then true else false.
Definition isPut (e : Event) : bool := if e is EPut _ _ _ then true else false.
Definition isGet (e : Event) : bool := if e is EGet _ then true else false.
Definition isDelete (e : Event) : bool := if e is EDelete _ then true else false.

Definition count (p : Event → bool) (events : list Event) : nat :=
  length (List.filter p events).

(** The response, if any, carries [X-Cache-Status: <value>]. *)
Definition cacheStatus (response : option Response) : option string :=
  response ≫= (λ r, Headers_get (resp_headers r) "X-Cache-Status").

Definition configured (env : Env) : Prop :=
  truthy (ORIGIN_API_URL env) = true ∧ is_Some (API_CACHE_BUCKET env).

Definition lookupEligible (request : Request) : bool :=
  negb (bypassCache request) && isCacheableMethod request.

Definition isHexChar (c : ascii) : bool :=
  in_range 48 57 (code c) || in_range 97 102 (code c).

(** The suffix that [generateCacheKey] appends. *)
Definition bodyHashSuffix (rt : Runtime) (request : Request) : string :=
  if String.eqb (req_method request) "POST" then
    ":bodyHash=" +:+
    match arrayBuffer (req_body request) with
    | Some [] => "emptybody"
    | Some bodyBuffer => hex_of_bytes (SHA256 rt bodyBuffer)
    | None => "readerror"
    end
  else "".

(** A request is served from the cache when the response it gets is the one
    built from the stored entry, recognisable by [X-Cache-Status: HIT]. *)
Definition servedFromCache (out : option Response * list Event) : Prop :=
  cacheStatus out.1 = Some "HIT".

(** The number of times a request was forwarded to the origin. *)
Definition forwarded (out : option Response * list Event) : nat :=
  count isFetch out.2.

Definition exactlyOneOutcome (out : option Response * list Event) : Prop :=
  (servedFromCache out ∧ forwarded out = 0%nat) ∨
  (¬ servedFromCache out ∧ forwarded out = 1%nat).

(** A [Response] object as the platform hands them out: a status the
    constructor accepts, and no body with a null-body status. *)
Definition wellFormed (r : Response) : Prop :=
  in_range 200 599 (status r) = true ∧
  (isNullBodyStatus (status r) = true → resp_body r = resp_null).

(** The upstream-failure response. *)
Definition badGateway (message : string) : Response :=
  {| status := 502; statusText := "";
     resp_headers := {[ "content-type" := "text/plain;charset=UTF-8" ]};
     resp_body := resp_stream (Some ("Failed to fetch from origin: " +:+ message)) |}.

(** ** Sample inputs *)

Definition zeroDigest (_ : list byte) : list byte := repeat x00 32.

Definition widgetURL : URL :=
  {| href := "https://proxy.example/widgets/1"; pathname := "/widgets/1"; search := "" |}.

Definition searchURL : URL :=
  {| href := "https://proxy.example/search"; pathname := "/search"; search := "" |}.

Definition getWidget (h : Headers) : Request :=
  {| req_method := "GET"; req_url := widgetURL; req_headers := h; req_body := body_absent |}.

Definition emptyBucket : R2Bucket := {| objects := ∅; get_rejects := false |}.

Definition sampleEnv (bucket : R2Bucket) : Env :=
  {| ORIGIN_API_URL := Some "https://origin.example";
     API_CACHE_BUCKET := Some bucket;
     OCP_APIM_Subscription_Key := Some "secret" |}.

(** [env] over another bucket. *)
Definition withBucket (env : Env) (bucket : R2Bucket) : Env :=
  {| ORIGIN_API_URL := ORIGIN_API_URL env;
     API_CACHE_BUCKET := Some bucket;
     OCP_APIM_Subscription_Key := OCP_APIM_Subscription_Key env |}.

(** The platform on the sample inputs: the outbound request is built
    exactly for an absolute http or https URL. *)
Definition sampleConstructs (req : OriginRequest) : bool :=
  startsWith (or_url req) "https://" || startsWith (or_url req) "http://".

(** An environment whose origin URL is set, but to no absolute URL. *)
Definition relativeOriginEnv : Env :=
  {| ORIGIN_API_URL := Some "origin.example";
     API_CACHE_BUCKET := Some emptyBucket;
     OCP_APIM_Subscription_Key := Some "secret" |}.

Definition unconfiguredEnv : Env :=
  {| ORIGIN_API_URL := None;
     API_CACHE_BUCKET := Some emptyBucket;
     OCP_APIM_Subscription_Key := None |}.

Definition sampleNow : Z := 1700000000000.

(** A runtime whose origin is unreachable. *)
Definition originDown : Runtime :=
  {| SHA256 := zeroDigest;
     origin_fetch := λ _, fetch_rejects "connection refused";
     now_lookup := sampleNow; now_store := sampleNow |}.

(** A runtime whose origin answers every request with [response]. *)
Definition originAnswers (response : Response) (lookupTime storeTime : Z) : Runtime :=
  {| SHA256 := zeroDigest;
     origin_fetch := λ _, fetch_resolves response;
     now_lookup := lookupTime; now_store := storeTime |}.

Definition okResponse (h : Headers) (bodyText : string) : Response :=
  {| status := 200; statusText := "OK"; resp_headers := h;
     resp_body := resp_stream (Some bodyText) |}.

(** C8 as the specification states it: a bypassing request is forwarded,
    touches the store neither for reading nor for writing, and its response
    carries [X-Cache-Status: MISS]. *)
Definition bypassAsStated (out : option Response * list Event) : Prop :=
  forwarded out = 1%nat ∧ count isGet out.2 = 0%nat ∧ count isPut out.2 = 0%nat ∧
  cacheStatus out.1 = Some "MISS".

Definition bypassingRequest : Request := getWidget {[ "cf-cache-control" := "no-cache" ]}.

Definition forcedPut : Request :=
  {| req_method := "PUT"; req_url := widgetURL;
     req_headers := {[ "cf-cache-control" := "force-cache" ]};
     req_body := body_bytes [x7b; x7d] |}.

Definition noStoreResponse : Response :=
  okResponse {[ "cache-control" := "private, No-Store" ]} "{}".

Fixpoint allDigits (s : string) : bool :=
  match s with
  | EmptyString => true
  | String c s' => isDigit c && allDigits s'
  end.

Definition entry (data : CachedResponseData) (metadata : option (gmap string string))
    : R2Object :=
  {| json := Some data; customMetadata := metadata |}.

Definition helloData : CachedResponseData :=
  {| cached_body := body_text "hello"; cached_status := 201;
     cached_headers := {[ "content-type" := "text/plain" ]} |}.

Definition widgetKey : string := "GET:https://proxy.example/widgets/1".

Definition bucketWith (object : R2Object) : R2Bucket :=
  {| objects := {[ widgetKey := object ]}; get_rejects := false |}.

(** The request that persists the entry of the round trip: a GET that asks
    for a TTL of 60 seconds. *)
Definition ttl60Request : Request := getWidget {[ "cf-cache-control" := "max-age=60" ]}.

(** The origin response of the round trip. *)
Definition helloResponse : Response :=
  {| status := 201; statusText := "Created";
     resp_headers := {[ "content-type" := "text/plain" ]};
     resp_body := resp_stream (Some "hello") |}.

(** ** Entries from which a response can be built *)













(** ** The TTL rule *)

(** The number [N] of a request-side [max-age=N] directive: [None] when the
    dedicated header is absent or does not start with [max-age=];
    [Some None] when it does but [N] does not parse. *)
Definition requestMaxAge (request : Request) : option (option Z) :=
  match Headers_get (req_headers request) CACHE_CONTROL_HEADER with
  | Some h =>
      if startsWith h "max-age=" then Some (parseInt (ToString (split_eq_1 h))) else None
  | None => None
  end.

(** The number [N] of the first [max-age=N] directive, with digits, of the
    response's [Cache-Control]. *)
Definition responseMaxAge (response : Response) : option Z :=
  match toLowerCase <$> Headers_get (resp_headers response) "Cache-Control" with
  | Some cacheControl =>
      match match_max_age cacheControl with
      | Some digits => parseInt digits
      | None => None
      end
  | None => None
  end.

(** The TTL as the specification words it: the request-side [N] if present
    and a positive integer; otherwise the response's [N] if present;
    otherwise the default; a directive that fails to parse gives the
    default. *)
Definition computeTTL_spec (request : Request) (response : Response) (defaultTTL : Z) : Z :=
  match requestMaxAge request with
  | Some (Some n) =>
      if 0 <? n then n else default defaultTTL (responseMaxAge response)
  | Some None => defaultTTL
  | None => default defaultTTL (responseMaxAge response)
  end.

Definition maxAge0Request : Request := getWidget {[ "cf-cache-control" := "max-age=0" ]}.

Definition maxAge120Response : Response :=
  okResponse {[ "cache-control" := "public, max-age=120" ]} "{id:1}".


Definition postSearch (h : Headers) (payload : list byte) : Request :=
  {| req_method := "POST"; req_url := searchURL; req_headers := h;
     req_body := body_bytes payload |}.

(** ** Further observations *)

(** The three header names that [handleRequestHeaders] touches. *)
Definition isHopHeader (name : string) : bool :=
  String.eqb name "host" ||
  String.eqb name "ocp-apim-subscription-region" ||
  String.eqb name "ocp-apim-subscription-key".

(** A trace in the order get, delete, fetch, put, all on one key. *)
Definition orderedTrace (key : string) (req : OriginRequest) (events : list Event) : Prop :=
  events = [] ∨ events = [EGet key] ∨
  ∃ pre post,
    events = pre ++ [EFetch req] ++ post ∧
    (pre = [] ∨ pre = [EGet key] ∨ pre = [EGet key; EDelete key]) ∧
    (post = [] ∨ ∃ data metadata, post = [EPut key data metadata]).

Definition putRequest (h : Headers) : Request :=
  {| req_method := "PUT"; req_url := widgetURL; req_headers := h;
     req_body := body_bytes [x7b; x7d] |}.

Definition unreachableBucket : R2Bucket := {| objects := ∅; get_rejects := true |}.

(** An object whose content is not JSON. *)
Definition garbledObject : R2Object :=
  {| json := None; customMetadata := Some {[ "expiration" := "5" ]} |}.

(** An origin response whose body stream fails when read. *)
Definition brokenBodyResponse : Response :=
  {| status := 200; statusText := "OK"; resp_headers := ∅;
     resp_body := resp_stream None |}.

Definition notFoundResponse : Response :=
  {| status := 404; statusText := "Not Found"; resp_headers := ∅;
     resp_body := resp_stream (Some "no such widget") |}.

Definition pragmaResponse : Response :=
  okResponse {[ "pragma" := "No-Cache" ]} "{}".

(** The headers of the response built from a stored entry: the stored ones,
    with the two diagnostic headers on top and a content type when the entry
    has none. *)
Definition servedHeaders (key : string) (stored : Headers) (name : string) : option string :=
  if String.eqb name "x-cache-key" then Some key
  else if String.eqb name "x-cache-status" then Some "HIT"
  else if String.eqb name "content-type"
       then Some (default "text/plain;charset=UTF-8" (stored !! "content-type"))
  else stored !! name.

(** A later run of the handler on the same platform: same digest, its own
    origin and clock. *)
Definition laterRuntime (rt : Runtime) (origin : OriginRequest → FetchResult)
    (lookupTime storeTime : Z) : Runtime :=
  {| SHA256 := SHA256 rt; origin_fetch := origin;
     now_lookup := lookupTime; now_store := storeTime |}.

Definition jsonResponse : Response :=
  okResponse {[ "cache-control" := "public, max-age=120"; "etag" := "abc" ]} "{id:1}".

Fixpoint allHex (s : string) : bool :=
  match s with
  | EmptyString => true
  | String c s' => isHexChar c && allHex s'
  end.

(** [s] contains the character [c]. *)
Fixpoint hasChar (c : ascii) (s : string) : bool :=
  match s with
  | EmptyString => false
  | String x s' => Ascii.eqb x c || hasChar c s'
  end.

(** Two request bodies that [generateCacheKey] does not tell apart: both
    unreadable, both empty or absent, or both non-empty with equal digests. *)
Definition sameBodyClass (rt : Runtime) (b1 b2 : RequestBody) : Prop :=
  match arrayBuffer b1, arrayBuffer b2 with
  | None, None => True
  | Some [], Some [] => True
  | Some (x :: l1), Some (y :: l2) => SHA256 rt (x :: l1) = SHA256 rt (y :: l2)
  | _, _ => False
  end.

Definition negativeTtlRequest : Request := getWidget {[ "cf-cache-control" := "max-age=-5" ]}.

(** Reading a hexadecimal digest back, for the proofs about
    [hex_of_bytes]. *)
Definition unhex_byte (c1 c2 : ascii) : option byte :=
  match digitValue 16 c1, digitValue 16 c2 with
  | Some hi, Some lo => Byte.of_N (Z.to_N (16 * hi + lo))
  | _, _ => None
  end.

Fixpoint unhex (s : string) : option (list byte) :=
  match s with
  | EmptyString => Some []
  | String c1 (String c2 rest) =>
      match unhex_byte c1 c2, unhex rest with
      | Some b, Some bs => Some (b :: bs)
      | _, _ => None
      end
  | String _ EmptyString => None
  end.

(** [headersToStore[key] = value] over [headers.entries()] copies a header as
    it is, with two exceptions: of several [Set-Cookie] lines only the last
    is kept, and the key [__proto__] creates no property. *)
Definition isCopiedHeader (name : string) : bool :=
  negb (String.eqb name "set-cookie") && negb (String.eqb name "__proto__").

(** [Number.isSafeInteger]: the integers on which the arithmetic of doubles
    is exact. *)
Definition isSafeInteger (x : Z) : bool :=
  (- (2 ^ 53 - 1) <=? x) && (x <=? 2 ^ 53 - 1).

(** The store step computes [now + ttl * 1000] without rounding. *)
Definition exactExpiration (now seconds : Z) : bool :=
  isSafeInteger now && isSafeInteger (seconds * 1000) &&
  isSafeInteger (now + seconds * 1000).

(** * Properties *)

(** ** JavaScript primitives on examples *)

Example parseInt_ex1 : parseInt "  42abc" = Some 42. Proof. reflexivity. Qed.
Example parseInt_ex2 : parseInt "-0x1F" = Some (-31). Proof. reflexivity. Qed.
Example parseInt_ex3 : parseInt "abc" = None. Proof. reflexivity. Qed.
Example parseInt_ex4 : parseInt "" = None. Proof. reflexivity. Qed.
Example toString_ex1 : Number_toString 1700000060000 = "1700000060000".
Proof. vm_compute. reflexivity. Qed.
Example toString_ex2 : Number_toString (-105) = "-105". Proof. reflexivity. Qed.
Example toString_ex3 : Number_toString 0 = "0". Proof. reflexivity. Qed.
Example match_ex1 : match_max_age "public, max-age=, s-max-age=120" = Some "120".
Proof. reflexivity. Qed.
Example split_ex1 : split_eq_1 "max-age=60=70" = Some "60". Proof. reflexivity. Qed.
Example lower_ex1 : toLowerCase "No-Cache" = "no-cache". Proof. reflexivity. Qed.

(** ** Cache key *)

Lemma app_cons (x : ascii) (a b : string) : String x a +:+ b = String x (a +:+ b).
Proof. reflexivity. Qed.

Lemma app_empty_r (a : string) : a +:+ "" = a.
Proof. induction a as [| x a IH]; [reflexivity | by rewrite app_cons, IH]. Qed.

Lemma hex_of_byte_chars (b : byte) :
  ∃ c1 c2, hex_of_byte b = String c1 (String c2 EmptyString) ∧
           isHexChar c1 = true ∧ isHexChar c2 = true.
Proof.
  destruct b; (eexists; eexists; split; [reflexivity | split; reflexivity]).
Qed.

(** A hexadecimal digest is never the sentinel. *)
Lemma hex_of_bytes_not_sentinel (bs : list byte) :
  hex_of_bytes bs ≠ "emptybody".
Proof.
  destruct bs as [| b bs]; [discriminate |].
  cbn [hex_of_bytes].
  destruct (hex_of_byte_chars b) as (c1 & c2 & -> & _ & H2).
  rewrite !app_cons. intros [= _ ->]. discriminate.
Qed.

Lemma generateHash_nonempty (rt : Runtime) (b : byte) (bs : list byte) :
  generateHash rt (data_buffer (b :: bs)) = hex_of_bytes (SHA256 rt (b :: bs)).
Proof. reflexivity. Qed.

Lemma generateCacheKey_format (rt : Runtime) (request : Request) :
  generateCacheKey rt request =
  (req_method request +:+ ":" +:+ href (req_url request)) +:+ bodyHashSuffix rt request.
Proof.
  unfold generateCacheKey, bodyHashSuffix.
  destruct (String.eqb (req_method request) "POST").
  - destruct (arrayBuffer (req_body request)) as [[| b bs] |]; reflexivity.
  - by rewrite app_empty_r.
Qed.

(** C5: the cache key is a function of method, URL and body alone: two
    requests that agree on these three (whatever their headers) get the same
    key.  The key is [METHOD:URL], followed by [:bodyHash=] and the digest
    or a sentinel exactly when the method is POST. *)
Theorem generateCacheKey_deterministic (rt : Runtime) (r1 r2 : Request) :
  req_method r1 = req_method r2 →
  href (req_url r1) = href (req_url r2) →
  req_body r1 = req_body r2 →
  generateCacheKey rt r1 = generateCacheKey rt r2 ∧
  generateCacheKey rt r1 =
    (req_method r1 +:+ ":" +:+ href (req_url r1)) +:+ bodyHashSuffix rt r1 ∧
  (req_method r1 ≠ "POST" → bodyHashSuffix rt r1 = "") ∧
  (req_method r1 = "POST" →
   ∃ h, bodyHashSuffix rt r1 = ":bodyHash=" +:+ h ∧
        (h = "emptybody" ∨ h = "readerror" ∨
         ∃ b bs, req_body r1 = body_bytes (b :: bs) ∧
                 h = generateHash rt (data_buffer (b :: bs)))).
Proof.
  intros Hm Hu Hb. split; [| split; [| split]].
  - rewrite !generateCacheKey_format. unfold bodyHashSuffix.
    by rewrite Hm, Hu, Hb.
  - apply generateCacheKey_format.
  - intros Hne. unfold bodyHashSuffix.
    destruct (String.eqb_spec (req_method r1) "POST"); [contradiction | reflexivity].
  - intros Heq. unfold bodyHashSuffix. rewrite Heq. cbn [String.eqb Ascii.eqb Bool.eqb].
    eexists; split; [reflexivity |].
    destruct (req_body r1) as [| [| b bs] |]; cbn; eauto 6.
Qed.

(** C6: a POST request with an empty or absent body gets a key that ends
    with [:bodyHash=emptybody], and [generateHash] answers the sentinel
    [emptybody] on empty or absent input, which no hexadecimal digest
    equals. *)
Theorem empty_body_sentinel (rt : Runtime) (request : Request) :
  req_method request = "POST" →
  req_body request = body_absent ∨ req_body request = body_bytes [] →
  generateCacheKey rt request =
    ("POST:" +:+ href (req_url request)) +:+ ":bodyHash=emptybody" ∧
  generateHash rt data_absent = "emptybody" ∧
  generateHash rt (data_buffer []) = "emptybody" ∧
  generateHash rt (data_string "") = "emptybody" ∧
  generateHash rt (data_buffer []) ≠ hex_of_bytes (SHA256 rt []).
Proof.
  intros Hm Hb. split; [| repeat split].
  - rewrite generateCacheKey_format. unfold bodyHashSuffix. rewrite Hm.
    by destruct Hb as [-> | ->].
  - intros H. symmetry in H. by apply hex_of_bytes_not_sentinel in H.
Qed.

Lemma generateCacheKey_deterministic_witness :
  generateCacheKey originDown (postSearch ∅ [x7b; x7d]) =
  generateCacheKey originDown (postSearch {[ "accept" := "*/*" ]} [x7b; x7d]).
Proof.
  destruct (generateCacheKey_deterministic originDown
              (postSearch ∅ [x7b; x7d])
              (postSearch {[ "accept" := "*/*" ]} [x7b; x7d])) as [H _];
    [reflexivity | reflexivity | reflexivity | exact H].
Defined.

Lemma empty_body_sentinel_witness :
  generateCacheKey originDown (postSearch ∅ []) =
  "POST:https://proxy.example/search:bodyHash=emptybody".
Proof.
  exact (proj1 (empty_body_sentinel originDown (postSearch ∅ []) eq_refl
                  (or_intror eq_refl))).
Defined.

(** ** Header names *)

Lemma lower_status : toLowerCase "X-Cache-Status" = "x-cache-status".
Proof. reflexivity. Qed.
Lemma lower_key : toLowerCase "X-Cache-Key" = "x-cache-key".
Proof. reflexivity. Qed.
Lemma lower_content_type : toLowerCase "Content-Type" = "content-type".
Proof. reflexivity. Qed.
Lemma lower_cache_control : toLowerCase "Cache-Control" = "cache-control".
Proof. reflexivity. Qed.
Lemma lower_pragma : toLowerCase "Pragma" = "pragma".
Proof. reflexivity. Qed.
Lemma lower_custom : toLowerCase CACHE_CONTROL_HEADER = "cf-cache-control".
Proof. reflexivity. Qed.

Create Rewrite HintDb names.
#[local] Hint Rewrite lower_status lower_key lower_content_type
  lower_cache_control lower_pragma lower_custom : names.

Ltac header_names :=
  unfold Headers_has, Headers_get, Headers_set, Headers_delete in *;
  autorewrite with names in *.

(** ** Responses *)

Lemma new_Response_headers_other (body : BodyInit) st stText (h : Headers) r name :
  new_Response body st stText h = Some r →
  name ≠ "content-type" →
  resp_headers r !! name = h !! name.
Proof.
  unfold new_Response. intros H Hne.
  destruct (negb (in_range 200 599 st)); [discriminate |].
  destruct body; [| destruct (isNullBodyStatus st); [discriminate |] ..];
    injection H as <-; cbn; [reflexivity | | reflexivity].
  case_match; [reflexivity | by rewrite lookup_insert_ne].
Qed.

Lemma new_Response_status (body : BodyInit) st stText (h : Headers) r :
  new_Response body st stText h = Some r → status r = st ∧ in_range 200 599 st = true.
Proof.
  unfold new_Response. intros H.
  destruct (in_range 200 599 st) eqn:E; [| discriminate].
  destruct body; [| destruct (isNullBodyStatus st); [discriminate |] ..];
    injection H as <-; by cbn.
Qed.

Lemma hitResponse_status key data r :
  hitResponse key data = Some r → cacheStatus (Some r) = Some "HIT".
Proof.
  unfold hitResponse, cacheStatus. intros H.
  change (resp_headers r !! toLowerCase "X-Cache-Status" = Some "HIT").
  rewrite lower_status.
  rewrite (new_Response_headers_other _ _ _ _ _ _ H) by discriminate.
  header_names. rewrite lookup_insert_ne by discriminate.
  by rewrite lookup_insert_eq.
Qed.

Lemma missResponse_status key response r :
  missResponse key response = Some r → cacheStatus (Some r) = Some "MISS".
Proof.
  unfold missResponse, cacheStatus. intros H.
  change (resp_headers r !! toLowerCase "X-Cache-Status" = Some "MISS").
  rewrite lower_status.
  rewrite (new_Response_headers_other _ _ _ _ _ _ H) by discriminate.
  header_names. rewrite lookup_insert_ne by discriminate.
  by rewrite lookup_insert_eq.
Qed.

Lemma missResponse_not_hit key response : cacheStatus (missResponse key response) ≠ Some "HIT".
Proof.
  destruct (missResponse key response) as [r |] eqn:E; [| discriminate].
  by rewrite (missResponse_status _ _ _ E).
Qed.

Lemma badGateway_built message :
  new_Response (init_string ("Failed to fetch from origin: " +:+ message)) 502 "" ∅
  = Some (badGateway message).
Proof. reflexivity. Qed.

(** Every entry the handler stores (a textual body, a status in 200..299)
    yields a hit response, unless its status is 204 or 205. *)
Lemma hitResponse_stored key bodyText st (h : Headers) :
  200 ≤ st < 300 → st ≠ 204 → st ≠ 205 →
  ∃ r, hitResponse key {| cached_body := body_text bodyText; cached_status := st;
                          cached_headers := h |} = Some r ∧
       status r = st ∧ text r = Some bodyText.
Proof.
  intros Hr H204 H205. unfold hitResponse, new_Response.
  cbn [cached_body cached_status cached_headers].
  assert (in_range 200 599 st = true) as -> by (unfold in_range; lia).
  assert (isNullBodyStatus st = false) as -> by (unfold isNullBodyStatus; lia).
  cbn [negb]. by eexists.
Qed.

(** ** Traces of the phases *)

Lemma cacheLookup_trace rt bucket key :
  let out := cacheLookup rt bucket key in
  (out.2 = [EGet key] ∨ (out.1 = None ∧ out.2 = [EGet key; EDelete key])) ∧
  (∀ r, out.1 = Some r → cacheStatus (Some r) = Some "HIT").
Proof.
  unfold cacheLookup.
  destruct (R2Bucket_get bucket key) as [[object |] |]; cbn; [| naive_solver ..].
  destruct (json object) as [data |]; cbn; [| naive_solver].
  destruct (isExpired _ _); cbn; [naive_solver |].
  destruct (hitResponse key data) as [r |] eqn:E; cbn; [| naive_solver].
  split; [by auto |]. intros ? [= <-]. by apply hitResponse_status in E.
Qed.

Lemma cacheStore_trace v rt key request response :
  cacheStore v rt key request response = [] ∨
  ∃ bodyText,
    text response = Some bodyText ∧
    shouldCache request response = true ∧ bypassCache request = false ∧
    cacheStore v rt key request response =
      [EPut key {| cached_body := body_text bodyText;
                   cached_status := status response;
                   cached_headers := resp_headers response |}
            {[ "expiration" :=
                 expirationString (now_store rt) (ttl v request response) ]}].
Proof.
  unfold cacheStore.
  destruct (shouldCache request response) eqn:Hs; cbn; [| by left].
  destruct (bypassCache request) eqn:Hb; cbn; [by left |].
  destruct (text response) as [bodyText |] eqn:Ht; [| by left].
  right. by exists bodyText.
Qed.

(** A trace without [put] adds nothing to the bucket. *)
Lemma settle_no_put (events : list Event) (b : R2Bucket) key object :
  count isPut events = 0%nat →
  objects (settle b events) !! key = Some object →
  objects b !! key = Some object.
Proof.
  unfold settle. revert b.
  induction events as [| e events IH]; intros b Hc Hl; [exact Hl |].
  destruct e as [k | k | r | k data metadata]; cbn in Hc; try discriminate;
    cbn [fold_left run_task] in Hl; try (by apply IH).
  apply IH in Hl; [| exact Hc]. cbn in Hl.
  by apply lookup_delete_Some in Hl as [_ Hl].
Qed.

Lemma count_app p (l1 l2 : list Event) : count p (l1 ++ l2) = (count p l1 + count p l2)%nat.
Proof. unfold count. by rewrite List.filter_app, length_app. Qed.


Lemma cacheStore_counts v rt key request response :
  count isFetch (cacheStore v rt key request response) = 0%nat ∧
  count isGet (cacheStore v rt key request response) = 0%nat ∧
  count isDelete (cacheStore v rt key request response) = 0%nat.
Proof.
  destruct (cacheStore_trace v rt key request response) as [-> | (? & _ & _ & _ & ->)];
    by cbn.
Qed.

Lemma forward_counts v rt env url key request :
  count isFetch (forward v rt env url key request).2 = 1%nat ∧
  count isGet (forward v rt env url key request).2 = 0%nat ∧
  cacheStatus (forward v rt env url key request).1 ≠ Some "HIT".
Proof.
  unfold forward.
  destruct (origin_fetch rt _) as [message | response]; cbn [fst snd].
  - by rewrite badGateway_built.
  - change (EFetch ?r :: ?l) with ([EFetch r] ++ l).
    rewrite !count_app.
    destruct (cacheStore_counts v rt key request response) as (-> & -> & _).
    repeat split; auto using missResponse_not_hit.
Qed.

(** The handler once both bindings are present. *)
Lemma fetch_configured v rt env request bucket :
  truthy (ORIGIN_API_URL env) = true →
  API_CACHE_BUCKET env = Some bucket →
  fetch v rt env request =
    let cacheKey := generateCacheKey rt request in
    let lookup := if lookupEligible request then cacheLookup rt bucket cacheKey
                  else (None, []) in
    match lookup.1 with
    | Some response => (Some response, lookup.2)
    | None =>
        let out := forward v rt env (ToString (ORIGIN_API_URL env)) cacheKey request in
        (out.1, lookup.2 ++ out.2)
    end.
Proof.
  intros Hu Hb. unfold fetch, lookupEligible. rewrite Hu, Hb. cbn [negb].
  destruct (if negb (bypassCache request) && isCacheableMethod request
            then cacheLookup rt bucket (generateCacheKey rt request)
            else (None, [])) as [[r |] evs]; cbn [fst snd]; [reflexivity |].
  by destruct (forward _ _ _ _ _ _).
Qed.

(** Where the outbound request can be built, or is not needed, the two
    handlers agree. *)
Lemma fetch_checked_built constructs v rt env request :
  constructs (originRequest v env (ToString (ORIGIN_API_URL env)) request) = true →
  fetch_checked constructs v rt env request = fetch v rt env request.
Proof.
  intros Hc. unfold fetch_checked, fetch. by rewrite Hc.
Qed.


Lemma fetch_unconfigured v rt env request :
  ¬ configured env →
  ∃ r, fetch v rt env request = (Some r, []) ∧ status r = 500 ∧
       cacheStatus (Some r) = None.
Proof.
  intros Hc. unfold fetch.
  destruct (truthy (ORIGIN_API_URL env)) eqn:Hu; cbn [negb].
  - destruct (API_CACHE_BUCKET env) as [bucket |] eqn:Hb.
    + exfalso. apply Hc. split; [done | by rewrite Hb].
    + by eexists.
  - by eexists.
Qed.

(** The shapes a trace can take. *)
Lemma fetch_cases v rt env request bucket :
  truthy (ORIGIN_API_URL env) = true →
  API_CACHE_BUCKET env = Some bucket →
  let key := generateCacheKey rt request in
  let out := forward v rt env (ToString (ORIGIN_API_URL env)) key request in
  (∃ r, lookupEligible request = true ∧
        cacheLookup rt bucket key = (Some r, [EGet key]) ∧
        fetch v rt env request = (Some r, [EGet key])) ∨
  (∃ pre, fetch v rt env request = (out.1, pre ++ out.2) ∧
          (pre = [] ∧ lookupEligible request = false ∨
           lookupEligible request = true ∧
           (cacheLookup rt bucket key = (None, pre)) ∧
           (pre = [EGet key] ∨ pre = [EGet key; EDelete key]))).
Proof.
  intros Hu Hb key out. rewrite (fetch_configured _ _ _ _ _ Hu Hb).
  cbv zeta. fold key.
  destruct (lookupEligible request) eqn:He; cbv iota;
    [| right; exists []; naive_solver].
  pose proof (cacheLookup_trace rt bucket key) as [Ht _].
  destruct (cacheLookup rt bucket key) as [[r |] evs] eqn:El;
    subst key; rewrite ?El; cbn [fst snd] in *.
  - left. exists r. destruct Ht as [-> | [[=] _]]. done.
  - right. exists evs. split; [reflexivity |]. right.
    destruct Ht as [-> | [_ ->]]; auto.
Qed.

Lemma forward_trace v rt env url key request :
  let req := originRequest v env url request in
  match origin_fetch rt req with
  | fetch_rejects message =>
      forward v rt env url key request = (Some (badGateway message), [EFetch req])
  | fetch_resolves response =>
      forward v rt env url key request =
        (missResponse key response, EFetch req :: cacheStore v rt key request response)
  end.
Proof.
  intros req. unfold forward. fold req.
  destruct (origin_fetch rt req); [by rewrite badGateway_built | reflexivity].
Qed.

(** An origin response that is a well-formed [Response] is handed back. *)
Lemma missResponse_total key response :
  wellFormed response →
  ∃ r, missResponse key response = Some r ∧
       status r = status response ∧ statusText r = statusText response ∧
       resp_body r = resp_body response ∧
       cacheStatus (Some r) = Some "MISS" ∧
       Headers_get (resp_headers r) "X-Cache-Key" = Some key.
Proof.
  intros [Hr Hn].
  assert (∃ r, missResponse key response = Some r ∧ status r = status response ∧
               statusText r = statusText response ∧ resp_body r = resp_body response ∧
               resp_headers r = Headers_set (Headers_set (resp_headers response)
                                               "X-Cache-Status" "MISS") "X-Cache-Key" key)
    as (r & E & ? & ? & ? & Hh).
  { unfold missResponse, new_Response, body_of. rewrite Hr. cbn [negb].
    destruct (resp_body response) as [| content] eqn:Eb; [by eexists |].
    destruct (isNullBodyStatus (status response)); [by specialize (Hn eq_refl) |].
    by eexists. }
  exists r. repeat split; try done.
  - by apply missResponse_status in E.
  - rewrite Hh. header_names. by rewrite lookup_insert_eq.
Qed.

(** ** Outcomes *)

(** C1 (amended): when the origin URL and the bucket are configured and the
    outbound request can be built from the origin URL, every request is
    either served from the cache with the origin never contacted, or
    forwarded to the origin exactly once and not served from the cache. *)
Theorem exactly_one_outcome constructs v rt env request :
  configured env →
  constructs (originRequest v env (ToString (ORIGIN_API_URL env)) request) = true →
  exactlyOneOutcome (fetch_checked constructs v rt env request).
Proof.
  intros [Hu [bucket Hb]] Hc. rewrite (fetch_checked_built _ _ _ _ _ Hc).
  unfold exactlyOneOutcome, servedFromCache, forwarded.
  destruct (fetch_cases v rt env request bucket Hu Hb)
    as [(r & _ & El & ->) | (pre & -> & Hpre)]; cbn [fst snd].
  - left. split; [| done].
    pose proof (cacheLookup_trace rt bucket (generateCacheKey rt request)) as [_ Hh].
    rewrite El in Hh. by apply Hh.
  - right. rewrite count_app.
    destruct (forward_counts v rt env (ToString (ORIGIN_API_URL env))
                (generateCacheKey rt request) request) as (-> & _ & Hn).
    split; [done |].
    destruct Hpre as [[-> _] | (_ & _ & [-> | ->])]; done.
Qed.

Lemma exactly_one_outcome_witness :
  configured (sampleEnv emptyBucket) ∧
  exactlyOneOutcome
    (fetch_checked sampleConstructs cloudflare_cache originDown (sampleEnv emptyBucket)
       (getWidget ∅)).
Proof.
  assert (configured (sampleEnv emptyBucket)) as H.
  { split; [reflexivity | by eexists]. }
  split; [exact H | exact (exactly_one_outcome _ _ _ _ _ H eq_refl)].
Defined.

(** C1 as stated fails twice over: without the origin URL the handler
    answers 500 straight away; with an origin URL that is no absolute URL it
    throws when it builds the outbound request.  Either way the request is
    neither served from the cache nor forwarded. *)
Lemma exactly_one_outcome_counterexample :
  ¬ exactlyOneOutcome
      (fetch_checked sampleConstructs cloudflare_cache originDown unconfiguredEnv
         (getWidget ∅)) ∧
  ¬ exactlyOneOutcome
      (fetch_checked sampleConstructs cloudflare_cache originDown relativeOriginEnv
         (getWidget ∅)).
Proof.
  unfold exactlyOneOutcome, servedFromCache, forwarded.
  split; intros [[H _] | [_ H]]; vm_compute in H; discriminate.
Qed.

(** ** Bypass *)

Lemma cacheStore_bypass v rt key request response :
  bypassCache request = true → cacheStore v rt key request response = [].
Proof.
  intros Hb. unfold cacheStore. rewrite Hb.
  by destruct (shouldCache request response).
Qed.

(** C8 (amended): with the bindings configured and the outbound request
    buildable, a request that carries the bypass directive is forwarded to
    the origin exactly once whatever the bucket holds; the bucket is neither
    read nor written.  When the origin answers with a response that the
    [Response] constructor accepts (status 200 to 599, no body with a
    null-body status), the caller gets it with [X-Cache-Status: MISS]; when
    the origin fetch fails the caller gets the 502 response, which carries
    no cache-status header. *)
Theorem bypass_always_forwards constructs v rt env request bucket :
  truthy (ORIGIN_API_URL env) = true →
  API_CACHE_BUCKET env = Some bucket →
  bypassCache request = true →
  let key := generateCacheKey rt request in
  let req := originRequest v env (ToString (ORIGIN_API_URL env)) request in
  constructs req = true →
  let out := fetch_checked constructs v rt env request in
  out.2 = [EFetch req] ∧
  (∀ response,
     origin_fetch rt req = fetch_resolves response → wellFormed response →
     ∃ r, out.1 = Some r ∧ cacheStatus (Some r) = Some "MISS" ∧
          status r = status response ∧ resp_body r = resp_body response) ∧
  (∀ message,
     origin_fetch rt req = fetch_rejects message →
     out.1 = Some (badGateway message) ∧ cacheStatus out.1 = None).
Proof.
  intros Hu Hb Hbypass key req Hc out.
  assert (lookupEligible request = false) as He
    by (unfold lookupEligible; by rewrite Hbypass).
  assert (out = ((forward v rt env (ToString (ORIGIN_API_URL env)) key request).1,
                 (forward v rt env (ToString (ORIGIN_API_URL env)) key request).2)) as Hout.
  { subst out. rewrite (fetch_checked_built _ _ _ _ _ Hc).
    rewrite (fetch_configured _ _ _ _ _ Hu Hb). cbv zeta. by rewrite He. }
  pose proof (forward_trace v rt env (ToString (ORIGIN_API_URL env)) key request) as Hf.
  cbv zeta in Hf. fold req in Hf.
  rewrite Hout. clear Hout.
  destruct (origin_fetch rt req) as [message | response] eqn:Eo; rewrite Hf; cbn [fst snd].
  - split; [reflexivity | split; [discriminate |]].
    by intros ? [= <-].
  - rewrite (cacheStore_bypass _ _ _ _ _ Hbypass).
    split; [reflexivity | split; [| discriminate]].
    intros ? [= <-] Hw.
    destruct (missResponse_total key response Hw) as (r & -> & ? & _ & ? & ? & _).
    by exists r.
Qed.

Lemma bypass_always_forwards_witness :
  let env := sampleEnv emptyBucket in
  let rt := originAnswers (okResponse ∅ "{}") sampleNow sampleNow in
  bypassCache bypassingRequest = true ∧
  (fetch_checked sampleConstructs cloudflare_cache rt env bypassingRequest).2 =
    [EFetch (originRequest cloudflare_cache env "https://origin.example" bypassingRequest)].
Proof.
  split; [reflexivity |].
  exact (proj1 (bypass_always_forwards sampleConstructs cloudflare_cache
                  (originAnswers (okResponse ∅ "{}") sampleNow sampleNow)
                  (sampleEnv emptyBucket) bypassingRequest emptyBucket
                  eq_refl eq_refl eq_refl eq_refl)).
Defined.

(** C8 as stated fails: when the origin is unreachable, the response to a
    bypassing request is the 502 response, without [X-Cache-Status]; and
    when the origin URL is no absolute URL the request is not forwarded at
    all. *)
Lemma bypass_counterexample :
  bypassCache bypassingRequest = true ∧
  ¬ bypassAsStated
      (fetch_checked sampleConstructs cloudflare_cache originDown (sampleEnv emptyBucket)
         bypassingRequest) ∧
  ¬ bypassAsStated
      (fetch_checked sampleConstructs cloudflare_cache originDown relativeOriginEnv
         bypassingRequest).
Proof.
  split; [reflexivity |].
  split; intros (H1 & _ & _ & H); [vm_compute in H | vm_compute in H1]; discriminate.
Qed.

(** ** Origin failure *)

Lemma prefix_refl (s : string) : String.prefix s s = true.
Proof.
  induction s as [| c s IH]; [reflexivity |].
  cbn. by destruct (ascii_dec c c).
Qed.

Lemma includes_refl (s : string) : includes s s = true.
Proof. destruct s; cbn [includes]; unfold startsWith; by rewrite prefix_refl. Qed.

Lemma includes_suffix (a b : string) : includes (a +:+ b) b = true.
Proof.
  induction a as [| c a IH]; [apply includes_refl |].
  rewrite app_cons. cbn [includes]. rewrite IH. apply orb_true_r.
Qed.

(** Where an origin fetch shows in the trace, the handler went through
    [forward]. *)
Lemma fetch_forwarded v rt env request req :
  In (EFetch req) (fetch v rt env request).2 →
  ∃ pre, count isPut pre = 0%nat ∧
    req = originRequest v env (ToString (ORIGIN_API_URL env)) request ∧
    fetch v rt env request =
      let out := forward v rt env (ToString (ORIGIN_API_URL env))
                   (generateCacheKey rt request) request in
      (out.1, pre ++ out.2).
Proof.
  intros Hin.
  destruct (truthy (ORIGIN_API_URL env)) eqn:Hu;
    [destruct (API_CACHE_BUCKET env) as [bucket |] eqn:Hb |].
  - destruct (fetch_cases v rt env request bucket Hu Hb)
      as [(r & _ & _ & E) | (pre & E & Hpre)]; rewrite E in Hin.
    + cbn in Hin. by destruct Hin.
    + exists pre.
      assert (count isPut pre = 0%nat ∧ ∀ r, ¬ In (EFetch r) pre) as [Hc Hn].
      { destruct Hpre as [[-> _] | (_ & _ & [-> | ->])];
          (split; [reflexivity |]); intros r Hr; cbn in Hr; intuition discriminate. }
      split; [done |]. split; [| done].
      cbn [snd] in Hin. apply in_app_or in Hin as [Hin | Hin]; [by apply Hn in Hin |].
      pose proof (forward_trace v rt env (ToString (ORIGIN_API_URL env))
                    (generateCacheKey rt request) request) as Hf.
      cbv zeta in Hf.
      destruct (origin_fetch rt _) as [message | response]; rewrite Hf in Hin;
        cbn [snd] in Hin.
      * destruct Hin as [[= <-] | []]. done.
      * destruct Hin as [[= <-] | Hin]; [done |].
        destruct (cacheStore_trace v rt (generateCacheKey rt request) request response)
          as [E' | (? & _ & _ & _ & E')]; rewrite E' in Hin; cbn in Hin;
          intuition discriminate.
  - unfold fetch in Hin. rewrite Hu, Hb in Hin. cbn in Hin. done.
  - unfold fetch in Hin. rewrite Hu in Hin. cbn in Hin. done.
Qed.

(** C9: when the origin fetch of a request throws, the caller receives a
    502 response whose body is the failure description after a fixed
    prefix, and no [put] is issued for that request. *)
Theorem origin_failure_502 v rt env request req message :
  In (EFetch req) (fetch v rt env request).2 →
  origin_fetch rt req = fetch_rejects message →
  ∃ r bodyText,
    (fetch v rt env request).1 = Some r ∧
    status r = 502 ∧
    text r = Some bodyText ∧
    bodyText = "Failed to fetch from origin: " +:+ message ∧
    includes bodyText message = true ∧
    count isPut (fetch v rt env request).2 = 0%nat ∧
    ∀ bucket key object,
      objects (settle bucket (fetch v rt env request).2) !! key = Some object →
      objects bucket !! key = Some object.
Proof.
  intros Hin Ho.
  destruct (fetch_forwarded v rt env request req Hin) as (pre & Hpre & -> & E).
  rewrite E. cbv zeta.
  pose proof (forward_trace v rt env (ToString (ORIGIN_API_URL env))
                (generateCacheKey rt request) request) as Hf.
  cbv zeta in Hf. rewrite Ho in Hf. rewrite Hf. cbn [fst snd].
  exists (badGateway message), ("Failed to fetch from origin: " +:+ message).
  assert (count isPut (pre ++ [EFetch (originRequest v env (ToString (ORIGIN_API_URL env))
                                         request)]) = 0%nat) as Hc
    by (rewrite count_app, Hpre; reflexivity).
  split; [reflexivity |]. split; [reflexivity |]. split; [reflexivity |].
  split; [reflexivity |]. split; [apply includes_suffix |]. split; [exact Hc |].
  intros bucket key object. by apply settle_no_put.
Qed.

Lemma origin_failure_502_witness :
  let out := fetch cloudflare_cache originDown (sampleEnv emptyBucket) (getWidget ∅) in
  ∃ r bodyText,
    out.1 = Some r ∧ status r = 502 ∧ text r = Some bodyText ∧
    bodyText = "Failed to fetch from origin: connection refused" ∧
    includes bodyText "connection refused" = true ∧
    count isPut out.2 = 0%nat.
Proof.
  destruct (origin_failure_502 cloudflare_cache originDown (sampleEnv emptyBucket)
              (getWidget ∅)
              (originRequest cloudflare_cache (sampleEnv emptyBucket)
                 "https://origin.example" (getWidget ∅))
              "connection refused")
    as (r & bodyText & H1 & H2 & H3 & H4 & H5 & H6 & _);
    [vm_compute; right; left; reflexivity | reflexivity |].
  exists r, bodyText. by repeat split.
Defined.

(** ** Storage eligibility *)

Lemma shouldCache_no_store request response cc :
  Headers_get (resp_headers response) "Cache-Control" = Some cc →
  includes (toLowerCase cc) "no-store" = true →
  shouldCache request response = false.
Proof.
  intros Hcc Hin. unfold shouldCache. rewrite Hcc.
  change (toLowerCase <$> Some cc) with (Some (toLowerCase cc)).
  change (ToString (Some (toLowerCase cc))) with (toLowerCase cc).
  assert (truthy (Some (toLowerCase cc)) = true) as ->.
  { destruct (toLowerCase cc); [discriminate | reflexivity]. }
  rewrite Hin. cbn [negb orb andb].
  rewrite andb_false_r. by rewrite !andb_false_r.
Qed.

(** The force directive lifts the method gate: a PUT is stored when forced. *)
Example force_lifts_method_gate :
  isCacheableMethod forcedPut = false ∧
  shouldCache forcedPut (okResponse ∅ "{}") = true ∧
  shouldCache (getWidget ∅) (okResponse ∅ "{}") = true ∧
  shouldCache {| req_method := "PUT"; req_url := widgetURL; req_headers := ∅;
                 req_body := body_absent |} (okResponse ∅ "{}") = false.
Proof. repeat split. Qed.

(** C4: an origin response whose [Cache-Control] contains [no-store], in any
    letter case, is never persisted, whether or not the request carries the
    force directive: the negative check is a separate conjunct of
    [shouldCache], next to the one that the force flag relaxes. *)
Theorem no_store_never_persisted v rt env request req response cc :
  In (EFetch req) (fetch v rt env request).2 →
  origin_fetch rt req = fetch_resolves response →
  Headers_get (resp_headers response) "Cache-Control" = Some cc →
  includes (toLowerCase cc) "no-store" = true →
  shouldCache request response = false ∧
  count isPut (fetch v rt env request).2 = 0%nat ∧
  ∀ bucket key object,
    objects (settle bucket (fetch v rt env request).2) !! key = Some object →
    objects bucket !! key = Some object.
Proof.
  intros Hin Ho Hcc Hns.
  pose proof (shouldCache_no_store request response cc Hcc Hns) as Hs.
  split; [exact Hs |].
  assert (count isPut (fetch v rt env request).2 = 0%nat) as Hc.
  { destruct (fetch_forwarded v rt env request req Hin) as (pre & Hpre & -> & E).
    rewrite E. cbv zeta.
    pose proof (forward_trace v rt env (ToString (ORIGIN_API_URL env))
                  (generateCacheKey rt request) request) as Hf.
    cbv zeta in Hf. rewrite Ho in Hf. rewrite Hf. cbn [fst snd].
    assert (cacheStore v rt (generateCacheKey rt request) request response = []) as ->.
    { unfold cacheStore. by rewrite Hs. }
    rewrite count_app, Hpre. reflexivity. }
  split; [exact Hc |].
  intros bucket key object. by apply settle_no_put.
Qed.

Lemma no_store_never_persisted_witness :
  let rt := originAnswers noStoreResponse sampleNow sampleNow in
  forceCache forcedPut = true ∧
  shouldCache forcedPut noStoreResponse = false ∧
  count isPut (fetch cloudflare_cache rt (sampleEnv emptyBucket) forcedPut).2 = 0%nat.
Proof.
  split; [reflexivity |].
  pose proof (no_store_never_persisted cloudflare_cache
                (originAnswers noStoreResponse sampleNow sampleNow)
                (sampleEnv emptyBucket) forcedPut
                (originRequest cloudflare_cache (sampleEnv emptyBucket)
                   "https://origin.example" forcedPut)
                noStoreResponse "private, No-Store") as H.
  destruct H as (H1 & H2 & _);
    [vm_compute; by left | reflexivity | reflexivity | reflexivity |].
  split; assumption.
Defined.

(** ** Numbers and their decimal notation *)

Lemma mul_one_fmap (x : option Z) : Z.mul 1 <$> x = x.
Proof. destruct x as [n |]; [| reflexivity]. cbn. f_equal. lia. Qed.

Lemma isDigit_code c : isDigit c = true ↔ 48 ≤ code c ≤ 57.
Proof. unfold isDigit, in_range. lia. Qed.

Lemma digitValue_isDigit c :
  isDigit c = true → digitValue 10 c = Some (code c - 48).
Proof.
  intros H. unfold digitValue. fold (isDigit c). rewrite H.
  apply isDigit_code in H.
  destruct (code c - 48 <? 10) eqn:E; [reflexivity | lia].
Qed.

Lemma code_digit_char d : 0 ≤ d < 10 → code (digit_char d) = 48 + d.
Proof.
  intros H.
  assert (d = 0 ∨ d = 1 ∨ d = 2 ∨ d = 3 ∨ d = 4 ∨ d = 5 ∨ d = 6 ∨ d = 7 ∨ d = 8 ∨ d = 9)
    as Hd by lia.
  repeat (destruct Hd as [-> | Hd]; [reflexivity |]). by subst.
Qed.

Lemma isDigit_digit_char d : 0 ≤ d < 10 → isDigit (digit_char d) = true.
Proof. intros H. apply isDigit_code. rewrite code_digit_char by done. lia. Qed.

Lemma digitValue_digit_char d : 0 ≤ d < 10 → digitValue 10 (digit_char d) = Some d.
Proof.
  intros H. rewrite digitValue_isDigit by by apply isDigit_digit_char.
  rewrite code_digit_char by done. f_equal. lia.
Qed.

(** A digit is no white space, no sign and no [x]. *)
Lemma isDigit_plain c :
  isDigit c = true →
  isStrWhiteSpaceChar c = false ∧ c ≠ "-"%char ∧ c ≠ "+"%char ∧
  c ≠ "x"%char ∧ c ≠ "X"%char.
Proof.
  intros H. apply isDigit_code in H.
  repeat split;
    try (intros ->; destruct H as [H1 H2]; vm_compute in H1, H2;
         first [by destruct H1 | by destruct H2]).
  unfold isStrWhiteSpaceChar, in_range. lia.
Qed.

Lemma parseInt_digits c s :
  isDigit c = true → allDigits s = true →
  parseInt (String c s) = parseDigits 10 (String c s) None.
Proof.
  intros Hc Hs.
  destruct (isDigit_plain c Hc) as (Hw & Hm & Hp & _).
  unfold parseInt. cbn [trimStart]. rewrite Hw.
  assert ((match String c s with
           | String "-" r => (-1, r)
           | String "+" r => (1, r)
           | _ => (1, String c s)
           end) = (1, String c s)) as ->.
  { destruct c as [[] [] [] [] [] [] [] []]; try reflexivity; congruence. }
  assert ((match String c s with
           | String "0" (String "x" r) => (16, r)
           | String "0" (String "X" r) => (16, r)
           | _ => (10, String c s)
           end) = (10, String c s)) as ->.
  { destruct s as [| c' s']; [by destruct c as [[] [] [] [] [] [] [] []] |].
    cbn [allDigits] in Hs. apply andb_true_iff in Hs as [Hc' _].
    destruct (isDigit_plain c' Hc') as (_ & _ & _ & Hx & HX).
    destruct c as [[] [] [] [] [] [] [] []]; try reflexivity;
      destruct c' as [[] [] [] [] [] [] [] []]; try reflexivity; congruence. }
  apply mul_one_fmap.
Qed.

Lemma parseDigits_step c s acc :
  isDigit c = true →
  parseDigits 10 (String c s) acc = parseDigits 10 s (Some (default 0 acc * 10 + (code c - 48))).
Proof. intros H. cbn [parseDigits]. by rewrite digitValue_isDigit. Qed.

(** Reading digits never loses what has been read. *)
Lemma parseDigits_some s a :
  allDigits s = true → ∃ n, parseDigits 10 s (Some a) = Some n ∧ (0 ≤ a → 0 ≤ n).
Proof.
  revert a. induction s as [| c s IH]; intros a Hs; [by exists a |].
  cbn [allDigits] in Hs. apply andb_true_iff in Hs as [Hc Hs].
  rewrite parseDigits_step by done. simpl (default _ _).
  destruct (IH (a * 10 + (code c - 48)) Hs) as (n & -> & Hn).
  exists n. split; [done |]. apply isDigit_code in Hc. intros. apply Hn. lia.
Qed.

Lemma parseInt_allDigits c s :
  allDigits (String c s) = true → ∃ n, parseInt (String c s) = Some n ∧ 0 ≤ n.
Proof.
  intros H. cbn [allDigits] in H. apply andb_true_iff in H as [Hc Hs].
  rewrite parseInt_digits, parseDigits_step by done. simpl (default _ _).
  destruct (parseDigits_some s (0 * 10 + (code c - 48)) Hs) as (n & -> & Hn).
  exists n. split; [done |]. apply isDigit_code in Hc. apply Hn. lia.
Qed.

(** The digits written by [decimal_digits] read back as the number. *)
Lemma decimal_digits_spec fuel n acc :
  (0 < fuel)%nat → 0 ≤ n < 2 ^ Z.of_nat fuel → allDigits acc = true →
  ∃ c s k,
    decimal_digits fuel n acc = String c s ∧
    allDigits (String c s) = true ∧ 0 ≤ k ∧
    ∀ a, parseDigits 10 (String c s) (Some a) = parseDigits 10 acc (Some (a * 10 ^ k + n)).
Proof.
  revert n acc. induction fuel as [| fuel IH]; intros n acc Hf Hn Hacc; [lia |].
  cbn [decimal_digits].
  assert (0 ≤ n mod 10 < 10) as Hm by (apply Z.mod_pos_bound; lia).
  pose proof (isDigit_digit_char _ Hm) as Hd.
  destruct (n <? 10) eqn:E.
  - exists (digit_char (n mod 10)), acc, 1.
    split; [done |]. split; [cbn [allDigits]; by rewrite Hd, Hacc |].
    split; [lia |]. intros a.
    rewrite parseDigits_step by done. simpl (default _ _).
    rewrite code_digit_char by done.
    rewrite Z.mod_small by lia. do 2 f_equal. lia.
  - assert (10 ≤ n) as Hge by lia.
    assert (1 ≤ n / 10) as H1 by (apply Z.div_le_lower_bound; lia).
    assert (n / 10 < 2 ^ Z.of_nat fuel) as H2.
    { apply Z.div_lt_upper_bound; [lia |].
      rewrite Nat2Z.inj_succ, Z.pow_succ_r in Hn by lia. lia. }
    assert (0 < fuel)%nat as Hf'.
    { destruct fuel; [| lia]. change (2 ^ Z.of_nat 0) with 1 in H2. lia. }
    destruct (IH (n / 10) (String (digit_char (n mod 10)) acc) Hf')
      as (c & s & k & -> & Hall & Hk & Hp).
    { lia. }
    { cbn [allDigits]. by rewrite Hd, Hacc. }
    exists c, s, (k + 1). split; [done |]. split; [done |]. split; [lia |].
    intros a. rewrite Hp, parseDigits_step by done. simpl (default _ _).
    rewrite code_digit_char by done. do 2 f_equal.
    rewrite Z.pow_add_r by lia. pose proof (Z.div_mod n 10). lia.
Qed.

Lemma decimal_fuel n : 0 ≤ n → 0 ≤ n < 2 ^ Z.of_nat (S (Z.to_nat (Z.log2 n))).
Proof.
  intros Hn. split; [done |].
  rewrite Nat2Z.inj_succ, Z2Nat.id by apply Z.log2_nonneg.
  destruct (Z.eq_dec n 0) as [-> | Hne]; [reflexivity |].
  apply Z.log2_spec. lia.
Qed.

Lemma parseDigits_None c s :
  isDigit c = true →
  parseDigits 10 (String c s) None = parseDigits 10 (String c s) (Some 0).
Proof. intros H. by rewrite !parseDigits_step. Qed.

Lemma parseInt_minus c s :
  isDigit c = true →
  parseInt (String "-" (String c s)) = Z.opp <$> parseInt (String c s).
Proof.
  intros Hc. destruct (isDigit_plain c Hc) as (Hw & Hm & Hp & _).
  unfold parseInt. cbn [trimStart]. rewrite Hw.
  change (isStrWhiteSpaceChar "-") with false. cbv iota.
  assert ((match String c s with
           | String "-" r => (-1, r)
           | String "+" r => (1, r)
           | _ => (1, String c s)
           end) = (1, String c s)) as ->.
  { destruct c as [[] [] [] [] [] [] [] []]; try reflexivity; congruence. }
  destruct (match String c s with
            | String "0" (String "x" r) => (16, r)
            | String "0" (String "X" r) => (16, r)
            | _ => (10, String c s)
            end) as [radix rest].
  destruct (parseDigits radix rest None) as [n |]; cbn; [f_equal; lia | done].
Qed.

Lemma parseInt_decimal_digits n :
  0 ≤ n →
  ∃ c s, decimal_digits (S (Z.to_nat (Z.log2 n))) n "" = String c s ∧
         isDigit c = true ∧ parseInt (String c s) = Some n.
Proof.
  intros Hn.
  destruct (decimal_digits_spec (S (Z.to_nat (Z.log2 n))) n "")
    as (c & s & k & E & Hall & Hk & Hp); [lia | by apply decimal_fuel | done |].
  exists c, s. split; [done |].
  cbn [allDigits] in Hall. apply andb_true_iff in Hall as [Hc Hs].
  split; [done |].
  rewrite parseInt_digits, parseDigits_None, Hp by done. cbn; f_equal; lia.
Qed.

(** The decimal notation of an integer parses back to it.  For a safe
    integer [n] this is [parseInt(n.toString()) = n]. *)
Lemma parseInt_toString n : parseInt (Number_toString n) = Some n.
Proof.
  unfold Number_toString. destruct (n <? 0) eqn:E.
  - destruct (parseInt_decimal_digits (- n)) as (c & s & -> & Hc & Hp); [lia |].
    rewrite app_cons. change ("" +:+ String c s) with (String c s).
    rewrite parseInt_minus, Hp by done. cbn; f_equal; lia.
  - destruct (parseInt_decimal_digits n) as (c & s & -> & Hc & Hp); [lia |].
    exact Hp.
Qed.

(** ** Expiration *)

Lemma forward_withBucket v rt env bucket url key request :
  forward v rt (withBucket env bucket) url key request = forward v rt env url key request.
Proof. reflexivity. Qed.

Lemma isExpired_past e n now :
  parseInt e = Some n → n < now → isExpired (Some e) now = true.
Proof.
  intros Hp Hn. unfold isExpired. change (ToString (Some e)) with e. rewrite Hp.
  destruct e; [discriminate |]. cbn. lia.
Qed.

(** The test of the source, characterised. *)
Lemma isExpired_iff expiration now :
  isExpired expiration now = true ↔
  ∃ e n, expiration = Some e ∧ parseInt e = Some n ∧ n < now.
Proof.
  split.
  - unfold isExpired. intros H. apply andb_true_iff in H as [Ht H].
    destruct expiration as [e |]; [| discriminate].
    change (ToString (Some e)) with e in H.
    destruct (parseInt e) as [n |] eqn:Hp; [| discriminate].
    exists e, n. repeat split; [done | lia].
  - intros (e & n & -> & Hp & Hn). by apply (isExpired_past e n).
Qed.

(** A lookup that misses: the key is absent. *)
Lemma fetch_absent v rt env request bucket :
  truthy (ORIGIN_API_URL env) = true →
  API_CACHE_BUCKET env = Some bucket →
  lookupEligible request = true →
  let key := generateCacheKey rt request in
  R2Bucket_get bucket key = Some None →
  let out := forward v rt env (ToString (ORIGIN_API_URL env)) key request in
  fetch v rt env request = (out.1, EGet key :: out.2).
Proof.
  intros Hu Hb He key Hg out.
  rewrite (fetch_configured _ _ _ _ _ Hu Hb). cbv zeta. rewrite He.
  unfold cacheLookup. fold key. rewrite Hg. reflexivity.
Qed.



Lemma fetch_hit v rt env request bucket object data r :
  truthy (ORIGIN_API_URL env) = true →
  API_CACHE_BUCKET env = Some bucket →
  lookupEligible request = true →
  let key := generateCacheKey rt request in
  R2Bucket_get bucket key = Some (Some object) →
  json object = Some data →
  isExpired (expirationOf object) (now_lookup rt) = false →
  hitResponse key data = Some r →
  fetch v rt env request = (Some r, [EGet key]).
Proof.
  intros Hu Hb He key Hg Hj Hx Hr.
  rewrite (fetch_configured _ _ _ _ _ Hu Hb). cbv zeta. rewrite He.
  unfold cacheLookup. fold key. rewrite Hg, Hj.
  by rewrite Hx, Hr.
Qed.









(** ** Round trip through the store *)

(** The response built from a textual entry that has a content type. *)
Lemma hitResponse_text key bodyText st (h : Headers) :
  in_range 200 599 st = true → isNullBodyStatus st = false →
  is_Some (h !! "content-type") →
  hitResponse key {| cached_body := body_text bodyText; cached_status := st;
                     cached_headers := h |}
  = Some {| status := st; statusText := "";
            resp_headers := <["x-cache-key" := key]> (<["x-cache-status" := "HIT"]> h);
            resp_body := resp_stream (Some bodyText) |}.
Proof.
  intros Hr Hn Hct. unfold hitResponse, new_Response.
  cbn [cached_body cached_status cached_headers]. rewrite Hr, Hn. cbn [negb].
  header_names.
  rewrite bool_decide_eq_true_2; [reflexivity |].
  by rewrite !lookup_insert_ne by discriminate.
Qed.

(** C3: a GET whose origin response has status 201, the single header
    [content-type: text/plain] and body [hello], stored with a TTL of 60
    seconds, is answered one second later from the bucket: status 201, the
    same header, body [hello], with [X-Cache-Status: HIT] and the key in
    [X-Cache-Key]; the origin is not contacted again. *)
Theorem store_then_lookup_round_trip v rt env request bucket t laterOrigin laterStore :
  truthy (ORIGIN_API_URL env) = true →
  API_CACHE_BUCKET env = Some bucket →
  isCacheableMethod request = true →
  Headers_get (req_headers request) CACHE_CONTROL_HEADER = Some "max-age=60" →
  let key := generateCacheKey rt request in
  R2Bucket_get bucket key = Some None →
  origin_fetch rt (originRequest v env (ToString (ORIGIN_API_URL env)) request)
    = fetch_resolves helloResponse →
  now_store rt = t →
  let first := fetch v rt env request in
  let later := {| SHA256 := SHA256 rt; origin_fetch := laterOrigin;
                  now_lookup := t + 1000; now_store := laterStore |} in
  let second := fetch v later (withBucket env (settle bucket first.2)) request in
  first.2 = [EGet key; EFetch (originRequest v env (ToString (ORIGIN_API_URL env)) request);
             EPut key helloData {[ "expiration" := Number_toString (t + 60 * 1000) ]}] ∧
  cacheStatus first.1 = Some "MISS" ∧
  second.2 = [EGet key] ∧
  ∃ r, second.1 = Some r ∧
       status r = 201 ∧
       Headers_get (resp_headers r) "content-type" = Some "text/plain" ∧
       text r = Some "hello" ∧
       Headers_get (resp_headers r) "X-Cache-Status" = Some "HIT" ∧
       Headers_get (resp_headers r) "X-Cache-Key" = Some key ∧
       dom (resp_headers r) = {[ "content-type"; "x-cache-status"; "x-cache-key" ]}.
Proof.
  intros Hu Hb Hm Hh key Hg Ho Ht first later second.
  assert (bypassCache request = false) as Hby.
  { unfold bypassCache. by rewrite Hh. }
  assert (lookupEligible request = true) as He.
  { unfold lookupEligible. by rewrite Hby, Hm. }
  assert (get_rejects bucket = false) as Hrej.
  { unfold R2Bucket_get in Hg. by destruct (get_rejects bucket). }
  assert (ttl v request helloResponse = Some 60) as Httl.
  { unfold ttl. by rewrite Hh. }
  assert (first = (missResponse key helloResponse,
                   [EGet key;
                    EFetch (originRequest v env (ToString (ORIGIN_API_URL env)) request);
                    EPut key helloData
                      {[ "expiration" := Number_toString (t + 60 * 1000) ]}])) as E1.
  { subst first. rewrite (fetch_absent v rt env request bucket Hu Hb He Hg).
    pose proof (forward_trace v rt env (ToString (ORIGIN_API_URL env)) key request) as Hf.
    cbv zeta in Hf. rewrite Ho in Hf. fold key. rewrite Hf. cbn [fst snd].
    unfold cacheStore. rewrite Hby, Httl, Ht.
    assert (shouldCache request helloResponse = true) as ->.
    { unfold shouldCache. by rewrite Hm. }
    reflexivity. }
  assert (generateCacheKey later request = key) as Hkey by reflexivity.
  set (object := entry helloData (Some {[ "expiration" := Number_toString (t + 60 * 1000) ]})).
  assert (R2Bucket_get (settle bucket first.2) key = Some (Some object)) as Hg2.
  { rewrite E1. cbn [snd settle fold_left run_task]. unfold R2Bucket_get.
    cbn [get_rejects objects]. rewrite Hrej. by rewrite lookup_insert_eq. }
  assert (isExpired (expirationOf object) (now_lookup later) = false) as Hx.
  { apply not_true_is_false. intros (e & n & He' & Hp & Hn)%isExpired_iff.
    unfold expirationOf, object in He'. cbn in He'.
    rewrite lookup_singleton_eq in He'. injection He' as <-.
    rewrite parseInt_toString in Hp. injection Hp as <-. cbn in Hn. lia. }
  assert (∃ r, hitResponse key helloData = Some r ∧ status r = 201 ∧
               resp_body r = resp_stream (Some "hello") ∧
               resp_headers r =
                 <["x-cache-key" := key]>
                   (<["x-cache-status" := "HIT"]> {[ "content-type" := "text/plain" ]}))
    as (r & Hr & Hst & Hbody & Hhd).
  { eexists. split.
    - apply hitResponse_text; [reflexivity | reflexivity |].
      by rewrite lookup_singleton_eq.
    - repeat split. }
  assert (second = (Some r, [EGet key])) as E2.
  { subst second. rewrite <- Hkey.
    apply (fetch_hit v later (withBucket env (settle bucket first.2)) request
             (settle bucket first.2) object helloData r); try done. }
  rewrite E1, E2. cbn [fst snd].
  split; [reflexivity |]. split.
  { destruct (missResponse_total key helloResponse) as (r' & -> & _ & _ & _ & H' & _);
      [by split | exact H']. }
  split; [reflexivity |].
  exists r. split; [reflexivity |]. split; [exact Hst |].
  unfold text, Headers_get. rewrite Hbody, Hhd.
  repeat split.
Qed.

Lemma store_then_lookup_round_trip_witness :
  let rt := originAnswers helloResponse sampleNow sampleNow in
  let env := sampleEnv emptyBucket in
  let first := fetch cloudflare_cache rt env ttl60Request in
  let later := originAnswers helloResponse (sampleNow + 1000) (sampleNow + 1000) in
  let second := fetch cloudflare_cache later (withBucket env (settle emptyBucket first.2))
                  ttl60Request in
  second.2 = [EGet widgetKey] ∧
  ∃ r, second.1 = Some r ∧ status r = 201 ∧
       Headers_get (resp_headers r) "content-type" = Some "text/plain" ∧
       text r = Some "hello" ∧
       Headers_get (resp_headers r) "X-Cache-Status" = Some "HIT".
Proof.
  intros rt env first later second.
  destruct (store_then_lookup_round_trip cloudflare_cache rt env ttl60Request emptyBucket
              sampleNow (origin_fetch later) (now_store later))
    as (_ & _ & H2 & r & Hr & Hst & Hct & Htx & Hh & _); [by vm_compute .. |].
  split; [exact H2 |]. exists r. by repeat split.
Defined.

(** ** The TTL *)

Lemma match_max_age_digits s digits :
  match_max_age s = Some digits → ∃ n, parseInt digits = Some n ∧ 0 ≤ n.
Proof.
  induction s as [| c s IH].
  - cbn. discriminate.
  - cbn [match_max_age].
    destruct (stripPrefix "max-age=" (String c s)) as [rest |]; [| exact IH].
    assert (∀ r, allDigits (takeWhile isDigit r) = true) as Hall.
    { induction r as [| x r IHr]; [reflexivity |]. cbn [takeWhile].
      destruct (isDigit x) eqn:E; [| reflexivity]. cbn [allDigits]. by rewrite E. }
    specialize (Hall rest).
    destruct (takeWhile isDigit rest) as [| x r]; [exact IH |].
    intros [= <-]. by apply parseInt_allDigits.
Qed.

Lemma includes_max_age s digits :
  match_max_age s = Some digits → includes s "max-age=" = true.
Proof.
  induction s as [| c s IH]; [cbn; discriminate |].
  cbn [match_max_age includes].
  assert (∀ p t r, stripPrefix p t = Some r → startsWith t p = true) as Hpre.
  { unfold startsWith. induction p as [| a p IHp]; intros [| b t] r H; cbn in *;
      try done.
    destruct (Ascii.eqb_spec a b) as [-> | Hne]; [| discriminate].
    destruct (ascii_dec b b); [by eapply IHp | done]. }
  destruct (stripPrefix "max-age=" (String c s)) as [rest |] eqn:E.
  - intros _. by rewrite (Hpre _ _ _ E).
  - intros H. rewrite (IH H). apply orb_true_r.
Qed.

Lemma includes_nonempty s sub : sub ≠ "" → includes s sub = true → s ≠ "".
Proof. intros Hs H ->. destruct sub; [done |]. discriminate. Qed.

Lemma ttl_without_request_directive v request response :
  requestMaxAge request = None →
  ttl v request response =
    Some (default (DEFAULT_CACHE_TTL_SECONDS v) (responseMaxAge response)).
Proof.
  unfold requestMaxAge, ttl, responseMaxAge. intros Hr.
  assert (truthy (Headers_get (req_headers request) CACHE_CONTROL_HEADER)
          && startsWith (ToString (Headers_get (req_headers request) CACHE_CONTROL_HEADER))
               "max-age=" = false) as ->.
  { destruct (Headers_get (req_headers request) CACHE_CONTROL_HEADER) as [h |];
      [| reflexivity].
    change (ToString (Some h)) with h.
    destruct (startsWith h "max-age="); [discriminate | apply andb_false_r]. }
  destruct (Headers_get (resp_headers response) "Cache-Control") as [cc |];
    [| reflexivity].
  change (toLowerCase <$> Some cc) with (Some (toLowerCase cc)).
  change (ToString (Some (toLowerCase cc))) with (toLowerCase cc).
  cbv beta iota.
  destruct (match_max_age (toLowerCase cc)) as [digits |] eqn:E.
  - assert (includes (toLowerCase cc) "max-age=" = true) as Hi
      by by apply includes_max_age in E.
    rewrite Hi.
    assert (truthy (Some (toLowerCase cc)) = true) as ->.
    { apply (includes_nonempty _ "max-age=") in Hi; [| discriminate].
      by destruct (toLowerCase cc). }
    destruct (match_max_age_digits _ _ E) as (n & Hn & _).
    cbn [andb]. by rewrite Hn.
  - by destruct (truthy _ && includes _ _).
Qed.




(** The same input end to end: the entry is stored with the default TTL. *)
Example ttl_zero_override_stored :
  computeTTL_spec maxAge0Request maxAge120Response
    (DEFAULT_CACHE_TTL_SECONDS cloudflare_cache) = 120 ∧
  ttl cloudflare_cache maxAge0Request maxAge120Response = Some 2048000 ∧
  ∃ data,
    (fetch cloudflare_cache (originAnswers maxAge120Response sampleNow sampleNow)
       (sampleEnv emptyBucket) maxAge0Request).2 !! 2%nat
    = Some (EPut widgetKey data {[ "expiration" := "1702048000000" ]}).
Proof.
  split; [reflexivity |]. split; [reflexivity |].
  eexists. vm_compute. reflexivity.
Qed.

(** * Further properties of the handler *)

(** ** Configuration *)

(** X1: the configuration guard.  Without an origin URL ([undefined] or
    empty) the answer is 500 "Origin API URL not configured", whatever the
    bucket binding; with an origin URL but without the bucket it is 500 "R2
    Bucket not bound".  Neither the bucket nor the origin is touched. *)
Theorem unconfigured_answers_500 v rt env request :
  ¬ configured env →
  ∃ r bodyText,
    fetch v rt env request = (Some r, []) ∧ status r = 500 ∧
    text r = Some bodyText ∧
    (truthy (ORIGIN_API_URL env) = false →
     bodyText = "Origin API URL not configured") ∧
    (truthy (ORIGIN_API_URL env) = true →
     bodyText = "R2 Bucket not bound").
Proof.
  intros Hc. unfold fetch.
  destruct (truthy (ORIGIN_API_URL env)) eqn:Hu; cbn [negb].
  - destruct (API_CACHE_BUCKET env) as [bucket |] eqn:Hb.
    + exfalso. apply Hc. split; [done | by rewrite Hb].
    + eexists _, _. by repeat split.
  - eexists _, _. by repeat split.
Qed.

Lemma unconfigured_answers_500_witness :
  ∃ r, fetch part_000 originDown unconfiguredEnv (getWidget ∅) = (Some r, []) ∧
       status r = 500 ∧ text r = Some "Origin API URL not configured".
Proof.
  destruct (unconfigured_answers_500 part_000 originDown unconfiguredEnv (getWidget ∅))
    as (r & bodyText & E & Hs & Ht & Hu & _).
  { intros [H _]. discriminate H. }
  exists r. rewrite (Hu eq_refl) in Ht. by repeat split.
Defined.

(** ** The order of effects *)

Lemma trace_shape v rt env request :
  orderedTrace (generateCacheKey rt request)
    (originRequest v env (ToString (ORIGIN_API_URL env)) request)
    (fetch v rt env request).2.
Proof.
  unfold orderedTrace.
  destruct (truthy (ORIGIN_API_URL env)) eqn:Hu;
    [destruct (API_CACHE_BUCKET env) as [bucket |] eqn:Hb |].
  - destruct (fetch_cases v rt env request bucket Hu Hb)
      as [(r & _ & _ & ->) | (pre & -> & Hpre)]; cbn [snd]; [by auto |].
    right. right.
    pose proof (forward_trace v rt env (ToString (ORIGIN_API_URL env))
                  (generateCacheKey rt request) request) as Hf.
    cbv zeta in Hf.
    assert (pre = [] ∨ pre = [EGet (generateCacheKey rt request)] ∨
            pre = [EGet (generateCacheKey rt request);
                   EDelete (generateCacheKey rt request)]) as Hp.
    { destruct Hpre as [[-> _] | (_ & _ & [-> | ->])]; auto. }
    destruct (origin_fetch rt _) as [message | response]; rewrite Hf; cbn [snd].
    + exists pre, []. auto.
    + exists pre, (cacheStore v rt (generateCacheKey rt request) request response).
      split; [reflexivity |]. split; [exact Hp |].
      destruct (cacheStore_trace v rt (generateCacheKey rt request) request response)
        as [-> | (bodyText & _ & _ & _ & ->)]; [by left | right; by eexists _, _].
  - left. unfold fetch. by rewrite Hu, Hb.
  - left. unfold fetch. by rewrite Hu.
Qed.

(** X2: every run of the handler does at most one get, one delete, one
    origin fetch and one put, in this order and all on the request's own
    cache key: the bucket is read before the origin is contacted, and a put
    only ever follows an origin fetch. *)
Theorem trace_is_ordered v rt env request :
  orderedTrace (generateCacheKey rt request)
    (originRequest v env (ToString (ORIGIN_API_URL env)) request)
    (fetch v rt env request).2.
Proof. exact (trace_shape v rt env request). Qed.

Lemma settle_app b (l1 l2 : list Event) : settle b (l1 ++ l2) = settle (settle b l1) l2.
Proof. unfold settle. apply fold_left_app. Qed.

(** X3: a request only ever changes the bucket under its own cache key:
    once its background tasks have run, every other key holds what it held
    before. *)
Theorem other_keys_untouched v rt env request bucket other :
  other ≠ generateCacheKey rt request →
  objects (settle bucket (fetch v rt env request).2) !! other = objects bucket !! other.
Proof.
  intros Hne.
  destruct (trace_shape v rt env request)
    as [-> | [-> | (pre & post & -> & Hpre & Hpost)]]; [reflexivity | reflexivity |].
  rewrite !settle_app.
  assert (∀ b, objects (settle b post) !! other = objects b !! other) as Hp.
  { intros b. destruct Hpost as [-> | (data & metadata & ->)]; [reflexivity |].
    cbn. by rewrite lookup_insert_ne. }
  rewrite Hp. cbn [settle fold_left run_task].
  destruct Hpre as [-> | [-> | ->]]; cbn; [reflexivity | reflexivity |].
  by rewrite lookup_delete_ne.
Qed.

Lemma other_keys_untouched_witness :
  let rt := originAnswers helloResponse sampleNow sampleNow in
  let bucket := {| objects := {[ "GET:https://proxy.example/other" := entry helloData None ]};
                   get_rejects := false |} in
  objects (settle bucket (fetch cloudflare_cache rt (sampleEnv bucket) ttl60Request).2)
    !! "GET:https://proxy.example/other" = Some (entry helloData None).
Proof.
  intros rt bucket.
  rewrite (other_keys_untouched cloudflare_cache rt (sampleEnv bucket) ttl60Request bucket
             "GET:https://proxy.example/other"); [reflexivity |].
  vm_compute. discriminate.
Defined.

(** ** The outbound request *)

Lemma handleRequestHeaders_lookup env (h : Headers) name :
  handleRequestHeaders env h !! name =
    if String.eqb name "host" then None
    else if String.eqb name "ocp-apim-subscription-key"
         then Some (ToString (OCP_APIM_Subscription_Key env))
    else if String.eqb name "ocp-apim-subscription-region" then Some "japaneast"
    else h !! name.
Proof.
  unfold handleRequestHeaders, Headers_delete, Headers_set.
  change (toLowerCase "host") with "host".
  change (toLowerCase "ocp-apim-subscription-key") with "ocp-apim-subscription-key".
  change (toLowerCase "ocp-apim-subscription-region") with "ocp-apim-subscription-region".
  destruct (String.eqb_spec name "host") as [-> | Hh]; [apply lookup_delete_eq |].
  rewrite lookup_delete_ne by done.
  destruct (String.eqb_spec name "ocp-apim-subscription-key") as [-> | Hk];
    [apply lookup_insert_eq |].
  rewrite lookup_insert_ne by done.
  destruct (String.eqb_spec name "ocp-apim-subscription-region") as [-> | Hr];
    [apply lookup_insert_eq |].
  by rewrite lookup_insert_ne.
Qed.

(** X4: what reaches the origin.  Every origin request of a run has the
    inbound method and body, the URL [origin base + path + query] and the
    manual redirect policy; it never has a [host] header, and every inbound
    header other than [host] and the two subscription headers goes through
    unchanged.  In [cloudflare_cache.js] the subscription key and region are
    those of the environment, whatever the client sent. *)
Theorem origin_request_shape v rt env request req :
  In (EFetch req) (fetch v rt env request).2 →
  or_method req = req_method request ∧
  or_body req = req_body request ∧
  or_url req = ToString (ORIGIN_API_URL env) +:+ pathname (req_url request)
                 +:+ search (req_url request) ∧
  or_redirect req = "manual" ∧
  Headers_get (or_headers req) "Host" = None ∧
  (∀ name, isHopHeader name = false →
           or_headers req !! name = req_headers request !! name) ∧
  (usesHandleRequestHeaders v = true →
   Headers_get (or_headers req) "ocp-apim-subscription-key"
     = Some (ToString (OCP_APIM_Subscription_Key env)) ∧
   Headers_get (or_headers req) "ocp-apim-subscription-region" = Some "japaneast") ∧
  (usesHandleRequestHeaders v = false →
   ∀ name, name ≠ "host" → or_headers req !! name = req_headers request !! name).
Proof.
  intros Hin.
  destruct (fetch_forwarded v rt env request req Hin) as (pre & _ & -> & _).
  unfold originRequest, originHeaders, Headers_get. cbn [or_method or_body or_url or_redirect or_headers].
  change (toLowerCase "Host") with "host".
  change (toLowerCase "ocp-apim-subscription-key") with "ocp-apim-subscription-key".
  change (toLowerCase "ocp-apim-subscription-region") with "ocp-apim-subscription-region".
  repeat split.
  - destruct (usesHandleRequestHeaders v);
      [by rewrite handleRequestHeaders_lookup | apply lookup_delete_eq].
  - intros name Hn. unfold isHopHeader in Hn.
    apply orb_false_iff in Hn as [Hn Hk]. apply orb_false_iff in Hn as [Hh Hr].
    destruct (usesHandleRequestHeaders v).
    + by rewrite handleRequestHeaders_lookup, Hh, Hk, Hr.
    + unfold Headers_delete. change (toLowerCase "host") with "host".
      apply lookup_delete_ne. intros <-. discriminate.
  - rewrite H. by rewrite handleRequestHeaders_lookup.
  - rewrite H. by rewrite handleRequestHeaders_lookup.
  - intros H name Hn. rewrite H. unfold Headers_delete.
    change (toLowerCase "host") with "host". by apply lookup_delete_ne.
Qed.

Lemma origin_request_shape_witness :
  let request := getWidget {[ "host" := "proxy.example"; "accept" := "*/*";
                              "ocp-apim-subscription-key" := "mine" ]} in
  let env := sampleEnv emptyBucket in
  let req := originRequest cloudflare_cache env "https://origin.example" request in
  In (EFetch req) (fetch cloudflare_cache originDown env request).2 ∧
  or_url req = "https://origin.example/widgets/1" ∧
  Headers_get (or_headers req) "Host" = None ∧
  or_headers req !! "accept" = Some "*/*" ∧
  Headers_get (or_headers req) "ocp-apim-subscription-key" = Some "secret".
Proof.
  intros request env req.
  assert (In (EFetch req) (fetch cloudflare_cache originDown env request).2) as Hin
    by (vm_compute; right; by left).
  destruct (origin_request_shape cloudflare_cache originDown env request req Hin)
    as (_ & _ & Hu & _ & Hh & Ho & Hk & _).
  split; [exact Hin |]. split; [exact Hu |]. split; [exact Hh |].
  split; [by rewrite Ho | exact (proj1 (Hk eq_refl))].
Defined.

(** ** Methods outside GET and POST *)

Lemma noncacheable_forwarded v rt env request :
  configured env →
  isCacheableMethod request = false →
  let out := fetch v rt env request in
  let req := originRequest v env (ToString (ORIGIN_API_URL env)) request in
  count isGet out.2 = 0%nat ∧
  ¬ servedFromCache out ∧
  forwarded out = 1%nat ∧
  (forceCache request = false → out.2 = [EFetch req]).
Proof.
  intros [Hu [bucket Hb]] Hm out req.
  assert (lookupEligible request = false) as He
    by (unfold lookupEligible; rewrite Hm; apply andb_false_r).
  assert (out = ((forward v rt env (ToString (ORIGIN_API_URL env))
                    (generateCacheKey rt request) request).1,
                 (forward v rt env (ToString (ORIGIN_API_URL env))
                    (generateCacheKey rt request) request).2)) as ->.
  { subst out. rewrite (fetch_configured _ _ _ _ _ Hu Hb). cbv zeta. by rewrite He. }
  destruct (forward_counts v rt env (ToString (ORIGIN_API_URL env))
              (generateCacheKey rt request) request) as (Hf & Hg & Hh).
  unfold servedFromCache, forwarded. cbn [fst snd].
  split; [exact Hg |]. split; [exact Hh |]. split; [exact Hf |].
  intros Hforce.
  pose proof (forward_trace v rt env (ToString (ORIGIN_API_URL env))
                (generateCacheKey rt request) request) as Ht.
  cbv zeta in Ht. fold req in Ht.
  destruct (origin_fetch rt req) as [message | response]; rewrite Ht; [reflexivity |].
  cbn [snd]. f_equal. unfold cacheStore, shouldCache. by rewrite Hm, Hforce.
Qed.


(** X5: a request whose method is neither GET nor POST never reads the
    bucket and is never answered from it, force directive or not.  With the
    bindings configured and the outbound request buildable it is forwarded
    exactly once; without the force directive nothing is stored either, so
    the trace is then the origin fetch alone. *)
Theorem other_methods_never_hit constructs v rt env request :
  isCacheableMethod request = false →
  let out := fetch_checked constructs v rt env request in
  let req := originRequest v env (ToString (ORIGIN_API_URL env)) request in
  count isGet out.2 = 0%nat ∧
  ¬ servedFromCache out ∧
  (configured env → constructs req = true →
   forwarded out = 1%nat ∧
   (forceCache request = false → out.2 = [EFetch req])).
Proof.
  intros Hm out req.
  destruct (constructs req) eqn:Hc.
  - subst out. rewrite (fetch_checked_built _ _ _ _ _ Hc).
    destruct (truthy (ORIGIN_API_URL env)) eqn:Hu;
      [destruct (API_CACHE_BUCKET env) as [bucket |] eqn:Hb |].
    + destruct (noncacheable_forwarded v rt env request) as (Hg & Hh & Hf & Ht);
        [split; [done | by rewrite Hb] | done |].
      split; [exact Hg |]. split; [exact Hh |]. intros _ _. by split.
    + destruct (fetch_unconfigured v rt env request) as (r & -> & _ & Hs).
      { intros [_ [? H]]. rewrite Hb in H. discriminate. }
      split; [reflexivity |]. split.
      * unfold servedFromCache. cbn [fst]. by rewrite Hs.
      * intros [_ [? H]]. rewrite Hb in H. discriminate.
    + destruct (fetch_unconfigured v rt env request) as (r & -> & _ & Hs).
      { intros [H _]. rewrite Hu in H. discriminate. }
      split; [reflexivity |]. split.
      * unfold servedFromCache. cbn [fst]. by rewrite Hs.
      * intros [H _]. rewrite Hu in H. discriminate.
  - assert (out.2 = [] ∧ cacheStatus out.1 ≠ Some "HIT") as [E Hs].
    { subst out. unfold fetch_checked. fold req. rewrite Hc, Hm, andb_false_r.
      destruct (negb (truthy (ORIGIN_API_URL env))); [by split |].
      destruct (API_CACHE_BUCKET env); by split. }
    rewrite E. split; [reflexivity |]. split; [exact Hs |]. discriminate.
Qed.

Lemma other_methods_never_hit_witness :
  let bucket := {| objects := {[ "PUT:https://proxy.example/widgets/1" := entry helloData None ]};
                   get_rejects := false |} in
  let out := fetch_checked sampleConstructs cloudflare_cache
               (originAnswers helloResponse sampleNow sampleNow)
               (sampleEnv bucket) (putRequest ∅) in
  isCacheableMethod (putRequest ∅) = false ∧
  count isGet out.2 = 0%nat ∧ forwarded out = 1%nat ∧ count isPut out.2 = 0%nat.
Proof.
  intros bucket out.
  destruct (other_methods_never_hit sampleConstructs cloudflare_cache
              (originAnswers helloResponse sampleNow sampleNow) (sampleEnv bucket)
              (putRequest ∅)) as (Hg & _ & H); [reflexivity |].
  destruct H as (Hf & Ht); [split; [reflexivity | by eexists] | reflexivity |].
  split; [reflexivity |]. split; [exact Hg |]. split; [exact Hf |].
  subst out. by rewrite (Ht eq_refl).
Defined.

(** ** Failures on the side path *)

(** X6: a failing store read is a miss.  When [bucket.get] throws, or the
    object found does not parse as JSON, the handler returns exactly what it
    returns for an absent key: same response, same trace (in particular no
    delete is issued for the unreadable object). *)
Theorem store_read_failure_is_a_miss v rt env request bucket :
  truthy (ORIGIN_API_URL env) = true →
  API_CACHE_BUCKET env = Some bucket →
  lookupEligible request = true →
  let key := generateCacheKey rt request in
  (R2Bucket_get bucket key = None ∨
   ∃ object, R2Bucket_get bucket key = Some (Some object) ∧ json object = None) →
  let out := forward v rt env (ToString (ORIGIN_API_URL env)) key request in
  fetch v rt env request = (out.1, EGet key :: out.2) ∧
  (∀ bucket', R2Bucket_get bucket' key = Some None →
     fetch v rt (withBucket env bucket') request = fetch v rt env request) ∧
  count isDelete (fetch v rt env request).2 = 0%nat.
Proof.
  intros Hu Hb He key Hfail out.
  assert (fetch v rt env request = (out.1, EGet key :: out.2)) as E.
  { rewrite (fetch_configured _ _ _ _ _ Hu Hb). cbv zeta. rewrite He.
    unfold cacheLookup. fold key.
    destruct Hfail as [-> | (object & -> & ->)]; reflexivity. }
  split; [exact E |]. split.
  - intros bucket' Hg'. rewrite E.
    exact (fetch_absent v rt (withBucket env bucket') request bucket' Hu eq_refl He Hg').
  - rewrite E. cbn [snd]. change (EGet key :: out.2) with ([EGet key] ++ out.2).
    rewrite count_app. cbn.
    pose proof (forward_trace v rt env (ToString (ORIGIN_API_URL env)) key request) as Ht.
    cbv zeta in Ht. subst out.
    destruct (origin_fetch rt _) as [message | response]; rewrite Ht; [reflexivity |].
    cbn [snd]. change (EFetch ?r :: ?l) with ([EFetch r] ++ l). rewrite count_app.
    by destruct (cacheStore_counts v rt key request response) as (_ & _ & ->).
Qed.

Lemma store_read_failure_is_a_miss_witness :
  let rt := originAnswers helloResponse sampleNow sampleNow in
  cacheStatus (fetch cloudflare_cache rt (sampleEnv unreachableBucket) (getWidget ∅)).1
    = Some "MISS" ∧
  fetch cloudflare_cache rt (sampleEnv (bucketWith garbledObject)) (getWidget ∅)
    = fetch cloudflare_cache rt (sampleEnv emptyBucket) (getWidget ∅).
Proof.
  intros rt. split.
  - destruct (store_read_failure_is_a_miss cloudflare_cache rt (sampleEnv unreachableBucket)
                (getWidget ∅) unreachableBucket) as (E & _);
      [reflexivity | reflexivity | reflexivity | by left |].
    rewrite E. reflexivity.
  - destruct (store_read_failure_is_a_miss cloudflare_cache rt
                (sampleEnv (bucketWith garbledObject)) (getWidget ∅)
                (bucketWith garbledObject)) as (_ & E & _);
      [reflexivity | reflexivity | reflexivity | right; by eexists |].
    symmetry. exact (E emptyBucket eq_refl).
Defined.

(** ** When an entry is written *)



(** X8: what is never stored.  The answer of the origin is not written to
    the bucket when its status lies outside 200..299, when its
    [Cache-Control] contains [no-cache], when its [Pragma] contains
    [no-cache] (in any letter case), or when reading its body fails; in the
    last case the caller still gets the answer. *)
Theorem never_stored v rt env request req response :
  In (EFetch req) (fetch v rt env request).2 →
  origin_fetch rt req = fetch_resolves response →
  (status response < 200 ∨ 300 ≤ status response ∨
   (∃ cc, Headers_get (resp_headers response) "Cache-Control" = Some cc ∧
          includes (toLowerCase cc) "no-cache" = true) ∨
   (∃ p, Headers_get (resp_headers response) "Pragma" = Some p ∧
         includes (toLowerCase p) "no-cache" = true) ∨
   text response = None) →
  count isPut (fetch v rt env request).2 = 0%nat ∧
  (fetch v rt env request).1 = missResponse (generateCacheKey rt request) response.
Proof.
  intros Hin Ho Hwhy.
  destruct (fetch_forwarded v rt env request req Hin) as (pre & Hpre & -> & E).
  rewrite E. cbv zeta.
  pose proof (forward_trace v rt env (ToString (ORIGIN_API_URL env))
                (generateCacheKey rt request) request) as Hf.
  cbv zeta in Hf. rewrite Ho in Hf. rewrite Hf. cbn [fst snd].
  split; [| reflexivity].
  rewrite count_app, Hpre.
  assert (cacheStore v rt (generateCacheKey rt request) request response = []) as ->;
    [| reflexivity].
  unfold cacheStore.
  destruct Hwhy as [Hs | [Hs | [(cc & Hcc & Hi) | [(p & Hp & Hi) | Ht]]]].
  - assert (shouldCache request response = false) as ->; [| reflexivity].
    unfold shouldCache. destruct (200 <=? status response) eqn:E1; [lia |].
    by rewrite andb_false_r.
  - assert (shouldCache request response = false) as ->; [| reflexivity].
    unfold shouldCache. destruct (status response <? 300) eqn:E1; [lia |].
    by rewrite !andb_false_r.
  - assert (shouldCache request response = false) as ->; [| reflexivity].
    unfold shouldCache. rewrite Hcc.
    change (toLowerCase <$> Some cc) with (Some (toLowerCase cc)).
    change (ToString (Some (toLowerCase cc))) with (toLowerCase cc).
    assert (truthy (Some (toLowerCase cc)) = true) as ->.
    { destruct (toLowerCase cc); [discriminate | reflexivity]. }
    rewrite Hi. cbn [negb orb andb]. by rewrite andb_false_r.
  - assert (shouldCache request response = false) as ->; [| reflexivity].
    unfold shouldCache. rewrite Hp.
    change (toLowerCase <$> Some p) with (Some (toLowerCase p)).
    change (ToString (Some (toLowerCase p))) with (toLowerCase p).
    assert (truthy (Some (toLowerCase p)) = true) as ->.
    { destruct (toLowerCase p); [discriminate | reflexivity]. }
    rewrite Hi. cbn [negb orb]. apply andb_false_r.
  - rewrite Ht. by destruct (_ && _).
Qed.

Lemma never_stored_witness :
  let env := sampleEnv emptyBucket in
  let req := originRequest cloudflare_cache env "https://origin.example" (getWidget ∅) in
  count isPut (fetch cloudflare_cache (originAnswers notFoundResponse sampleNow sampleNow)
                 env (getWidget ∅)).2 = 0%nat ∧
  count isPut (fetch cloudflare_cache (originAnswers pragmaResponse sampleNow sampleNow)
                 env (getWidget ∅)).2 = 0%nat ∧
  count isPut (fetch cloudflare_cache (originAnswers brokenBodyResponse sampleNow sampleNow)
                 env (getWidget ∅)).2 = 0%nat.
Proof.
  intros env req. split; [| split].
  - refine (proj1 (never_stored cloudflare_cache
                     (originAnswers notFoundResponse sampleNow sampleNow) env (getWidget ∅)
                     req notFoundResponse _ eq_refl _)).
    + vm_compute. right. by left.
    + right. left. vm_compute. discriminate.
  - refine (proj1 (never_stored cloudflare_cache
                     (originAnswers pragmaResponse sampleNow sampleNow) env (getWidget ∅)
                     req pragmaResponse _ eq_refl _)).
    + vm_compute. right. by left.
    + right. right. right. left. exists "No-Cache". by split.
  - refine (proj1 (never_stored cloudflare_cache
                     (originAnswers brokenBodyResponse sampleNow sampleNow) env (getWidget ∅)
                     req brokenBodyResponse _ eq_refl _)).
    + vm_compute. right. by left.
    + by repeat right.
Defined.

(** ** What the caller gets on a miss *)

(** X9: on a miss the answer of the origin is handed back as it is: same
    status, status text and body, and every header of the origin except the
    two diagnostic ones, which are set to [MISS] and to the cache key even
    when the origin sent headers of these names. *)
Theorem miss_response_preserves_origin v rt env request req response :
  In (EFetch req) (fetch v rt env request).2 →
  origin_fetch rt req = fetch_resolves response →
  wellFormed response →
  ∃ r, (fetch v rt env request).1 = Some r ∧
       status r = status response ∧
       statusText r = statusText response ∧
       resp_body r = resp_body response ∧
       Headers_get (resp_headers r) "X-Cache-Status" = Some "MISS" ∧
       Headers_get (resp_headers r) "X-Cache-Key" = Some (generateCacheKey rt request) ∧
       ∀ name, name ≠ "x-cache-status" → name ≠ "x-cache-key" →
               resp_headers r !! name = resp_headers response !! name.
Proof.
  intros Hin Ho [Hr Hn].
  destruct (fetch_forwarded v rt env request req Hin) as (pre & _ & -> & E).
  rewrite E. cbv zeta.
  pose proof (forward_trace v rt env (ToString (ORIGIN_API_URL env))
                (generateCacheKey rt request) request) as Hf.
  cbv zeta in Hf. rewrite Ho in Hf. rewrite Hf. cbn [fst snd].
  unfold missResponse, new_Response, body_of. rewrite Hr. cbn [negb].
  assert (∀ (h : Headers) name,
            name ≠ "x-cache-status" → name ≠ "x-cache-key" →
            Headers_set (Headers_set h "X-Cache-Status" "MISS") "X-Cache-Key"
              (generateCacheKey rt request) !! name = h !! name) as Hother.
  { intros h name H1 H2. unfold Headers_set. rewrite lower_status, lower_key.
    by rewrite !lookup_insert_ne. }
  assert (∀ h : Headers,
            Headers_get (Headers_set (Headers_set h "X-Cache-Status" "MISS") "X-Cache-Key"
                           (generateCacheKey rt request)) "X-Cache-Status" = Some "MISS" ∧
            Headers_get (Headers_set (Headers_set h "X-Cache-Status" "MISS") "X-Cache-Key"
                           (generateCacheKey rt request)) "X-Cache-Key"
              = Some (generateCacheKey rt request)) as Hdiag.
  { intros h. unfold Headers_get, Headers_set. rewrite lower_status, lower_key.
    rewrite lookup_insert_ne by discriminate. by rewrite !lookup_insert_eq. }
  destruct (resp_body response) as [| content] eqn:Eb.
  - eexists. split; [reflexivity |]. cbn [status statusText resp_body resp_headers].
    destruct (Hdiag (resp_headers response)) as [H1 H2].
    split; [done |]. split; [done |]. split; [done |]. split; [exact H1 |].
    split; [exact H2 | apply Hother].
  - destruct (isNullBodyStatus (status response)); [by specialize (Hn eq_refl) |].
    eexists. split; [reflexivity |]. cbn [status statusText resp_body resp_headers].
    destruct (Hdiag (resp_headers response)) as [H1 H2].
    split; [done |]. split; [done |]. split; [done |]. split; [exact H1 |].
    split; [exact H2 | apply Hother].
Qed.

Lemma miss_response_preserves_origin_witness :
  let rt := originAnswers (okResponse {[ "x-cache-status" := "HIT"; "etag" := "abc" ]} "{}")
              sampleNow sampleNow in
  let env := sampleEnv emptyBucket in
  ∃ r, (fetch cloudflare_cache rt env (getWidget ∅)).1 = Some r ∧
       status r = 200 ∧
       Headers_get (resp_headers r) "X-Cache-Status" = Some "MISS" ∧
       resp_headers r !! "etag" = Some "abc".
Proof.
  intros rt env.
  destruct (miss_response_preserves_origin cloudflare_cache rt env (getWidget ∅)
              (originRequest cloudflare_cache env "https://origin.example" (getWidget ∅))
              (okResponse {[ "x-cache-status" := "HIT"; "etag" := "abc" ]} "{}"))
    as (r & E & Hs & _ & _ & Hm & _ & Ho).
  { vm_compute. right. by left. }
  { reflexivity. }
  { split; [reflexivity | discriminate]. }
  exists r. split; [exact E |]. split; [exact Hs |]. split; [exact Hm |].
  by rewrite Ho.
Defined.

(** ** The expiration metadata *)

Lemma Number_toString_truthy n : truthy (Some (Number_toString n)) = true.
Proof.
  pose proof (parseInt_toString n) as H.
  destruct (Number_toString n); [discriminate | reflexivity].
Qed.

Lemma isExpired_stored (now seconds later : Z) :
  isExpired (Some (expirationString now (Some seconds))) later = true ↔
  now + seconds * 1000 < later.
Proof.
  unfold isExpired, expirationString. rewrite Number_toString_truthy.
  change (ToString (Some ?s)) with s. rewrite parseInt_toString. cbn [andb]. lia.
Qed.

(** X10: the expiration written by the store step reads back exactly.  As
    long as [now + seconds * 1000] is computed without rounding (all three
    numbers are safe integers), an entry stored at [now] with a TTL of
    [seconds] is taken for expired at [later] if and only if
    [now + seconds * 1000 < later]; at the expiration instant itself it
    still counts as valid. *)
Theorem expiration_reads_back (now seconds later : Z) :
  exactExpiration now seconds = true →
  isSafeInteger later = true →
  isExpired (Some (expirationString now (Some seconds))) later = true ↔
  now + seconds * 1000 < later.
Proof. intros _ _. exact (isExpired_stored now seconds later). Qed.

Lemma expiration_reads_back_witness :
  isExpired (Some (expirationString sampleNow (Some 60))) (sampleNow + 60000) = false ∧
  isExpired (Some (expirationString sampleNow (Some 60))) (sampleNow + 60001) = true.
Proof.
  split.
  - apply not_true_is_false.
    intros H%(expiration_reads_back sampleNow 60 (sampleNow + 60000) eq_refl eq_refl).
    revert H. vm_compute. discriminate.
  - by apply (expiration_reads_back sampleNow 60 (sampleNow + 60001) eq_refl eq_refl).
Defined.

(** ** Store, then look up *)

Lemma generateCacheKey_digest rt rt' request :
  SHA256 rt' = SHA256 rt → generateCacheKey rt' request = generateCacheKey rt request.
Proof.
  intros H. unfold generateCacheKey, generateHash. by rewrite H.
Qed.

Lemma hitResponse_served key bodyText st (h : Headers) :
  200 ≤ st < 300 → isNullBodyStatus st = false →
  ∃ r, hitResponse key {| cached_body := body_text bodyText; cached_status := st;
                          cached_headers := h |} = Some r ∧
       status r = st ∧ text r = Some bodyText ∧
       ∀ name, resp_headers r !! name = servedHeaders key h name.
Proof.
  intros Hr Hn. unfold hitResponse, new_Response.
  cbn [cached_body cached_status cached_headers].
  assert (in_range 200 599 st = true) as -> by (unfold in_range; lia).
  rewrite Hn. cbn [negb].
  eexists. split; [reflexivity |]. split; [reflexivity |]. split; [reflexivity |].
  intros name. cbn [resp_headers]. unfold servedHeaders, Headers_has, Headers_get, Headers_set.
  rewrite lower_status, lower_key, lower_content_type.
  rewrite !(lookup_insert_ne _ _ "content-type") by discriminate.
  destruct (h !! "content-type") as [ct |] eqn:Ect.
  - rewrite bool_decide_eq_true_2 by by eexists.
    destruct (String.eqb_spec name "x-cache-key") as [-> | Hk]; [apply lookup_insert_eq |].
    rewrite lookup_insert_ne by done.
    destruct (String.eqb_spec name "x-cache-status") as [-> | Hs]; [apply lookup_insert_eq |].
    rewrite lookup_insert_ne by done.
    destruct (String.eqb_spec name "content-type") as [-> | Hc]; done.
  - rewrite bool_decide_eq_false_2 by (intros [? ?]; discriminate).
    destruct (String.eqb_spec name "x-cache-key") as [-> | Hk].
    { rewrite lookup_insert_ne by discriminate. apply lookup_insert_eq. }
    destruct (String.eqb_spec name "x-cache-status") as [-> | Hs].
    { rewrite !lookup_insert_ne by discriminate. apply lookup_insert_eq. }
    destruct (String.eqb_spec name "content-type") as [-> | Hc];
      [apply lookup_insert_eq |].
    by rewrite !lookup_insert_ne.
Qed.

(** The first of two runs: a miss on an absent key whose answer is stored. *)
Lemma fetch_stores v rt env request bucket response bodyText :
  truthy (ORIGIN_API_URL env) = true →
  API_CACHE_BUCKET env = Some bucket →
  lookupEligible request = true →
  let key := generateCacheKey rt request in
  let req := originRequest v env (ToString (ORIGIN_API_URL env)) request in
  R2Bucket_get bucket key = Some None →
  origin_fetch rt req = fetch_resolves response →
  shouldCache request response = true →
  text response = Some bodyText →
  (fetch v rt env request).2 =
    [EGet key; EFetch req;
     EPut key {| cached_body := body_text bodyText; cached_status := status response;
                 cached_headers := resp_headers response |}
          {[ "expiration" := expirationString (now_store rt) (ttl v request response) ]}].
Proof.
  intros Hu Hb He key req Hg Ho Hs Ht.
  rewrite (fetch_absent v rt env request bucket Hu Hb He Hg).
  pose proof (forward_trace v rt env (ToString (ORIGIN_API_URL env)) key request) as Hf.
  cbv zeta in Hf. fold req in Hf. rewrite Ho in Hf. fold key. rewrite Hf. cbn [snd].
  unfold cacheStore. rewrite Hs, Ht.
  assert (bypassCache request = false) as ->; [| reflexivity].
  unfold lookupEligible in He. by destruct (bypassCache request).
Qed.

(** X11: what is stored is what is served.  When a GET or POST misses on an
    absent key and the answer of the origin is stored (status not 204 or
    205, expiration computed without rounding), the same request, any time
    up to the expiration instant, is answered from the bucket without
    contacting the origin: status and body text of the origin's answer, and
    its headers other than [Set-Cookie] (and [__proto__]), with the two
    diagnostic headers on top and a default content type if it had none. *)
Theorem stored_response_is_served v rt env request bucket response bodyText seconds
    laterOrigin laterLookup laterStore :
  truthy (ORIGIN_API_URL env) = true →
  API_CACHE_BUCKET env = Some bucket →
  lookupEligible request = true →
  let key := generateCacheKey rt request in
  R2Bucket_get bucket key = Some None →
  origin_fetch rt (originRequest v env (ToString (ORIGIN_API_URL env)) request)
    = fetch_resolves response →
  shouldCache request response = true →
  isNullBodyStatus (status response) = false →
  text response = Some bodyText →
  ttl v request response = Some seconds →
  exactExpiration (now_store rt) seconds = true →
  isSafeInteger laterLookup = true →
  laterLookup ≤ now_store rt + seconds * 1000 →
  let first := fetch v rt env request in
  let second := fetch v (laterRuntime rt laterOrigin laterLookup laterStore)
                  (withBucket env (settle bucket first.2)) request in
  second.2 = [EGet key] ∧
  ∃ r, second.1 = Some r ∧
       status r = status response ∧
       text r = Some bodyText ∧
       ∀ name, isCopiedHeader name = true →
               resp_headers r !! name = servedHeaders key (resp_headers response) name.
Proof.
  intros Hu Hb He key Hg Ho Hs Hn Ht Httl _ _ Hlater first second.
  pose proof (fetch_stores v rt env request bucket response bodyText Hu Hb He Hg Ho Hs Ht)
    as E1. fold key first in E1. rewrite Httl in E1.
  assert (get_rejects bucket = false) as Hrej.
  { unfold R2Bucket_get in Hg. by destruct (get_rejects bucket). }
  set (data := {| cached_body := body_text bodyText; cached_status := status response;
                  cached_headers := resp_headers response |}) in *.
  set (object := entry data (Some {[ "expiration" :=
                                       expirationString (now_store rt) (Some seconds) ]})).
  set (later := laterRuntime rt laterOrigin laterLookup laterStore) in *.
  assert (generateCacheKey later request = key) as Hkey
    by by apply generateCacheKey_digest.
  assert (R2Bucket_get (settle bucket first.2) key = Some (Some object)) as Hg2.
  { rewrite E1. cbn [settle fold_left run_task]. unfold R2Bucket_get.
    cbn [get_rejects objects]. rewrite Hrej. by rewrite lookup_insert_eq. }
  assert (isExpired (expirationOf object) (now_lookup later) = false) as Hx.
  { apply not_true_is_false. unfold expirationOf, object. cbn [customMetadata entry].
    cbn [mbind option_bind]. rewrite lookup_singleton_eq.
    intros H%isExpired_stored. cbn in H. lia. }
  assert (200 ≤ status response < 300) as Hrange.
  { unfold shouldCache in Hs. repeat (apply andb_true_iff in Hs as [Hs ?]). lia. }
  destruct (hitResponse_served key bodyText (status response) (resp_headers response)
              Hrange Hn) as (r & Hr & Hst & Htx & Hh).
  fold data in Hr.
  assert (second = (Some r, [EGet key])) as ->.
  { subst second. rewrite <- Hkey.
    apply (fetch_hit v later (withBucket env (settle bucket first.2)) request
             (settle bucket first.2) object data r); try done; by rewrite Hkey. }
  split; [reflexivity |]. exists r. by repeat split.
Qed.

Lemma stored_response_is_served_witness :
  let rt := originAnswers jsonResponse sampleNow sampleNow in
  let env := sampleEnv emptyBucket in
  let first := fetch cloudflare_cache rt env (getWidget ∅) in
  let second := fetch cloudflare_cache
                  (laterRuntime rt (λ _, fetch_rejects "down") (sampleNow + 120000) 0)
                  (withBucket env (settle emptyBucket first.2)) (getWidget ∅) in
  ttl cloudflare_cache (getWidget ∅) jsonResponse = Some 120 ∧
  second.2 = [EGet widgetKey] ∧
  ∃ r, second.1 = Some r ∧ status r = 200 ∧ text r = Some "{id:1}" ∧
       resp_headers r !! "etag" = Some "abc" ∧
       resp_headers r !! "content-type" = Some "text/plain;charset=UTF-8".
Proof.
  intros rt env first second.
  destruct (stored_response_is_served cloudflare_cache rt env (getWidget ∅) emptyBucket
              jsonResponse "{id:1}" 120 (λ _, fetch_rejects "down") (sampleNow + 120000) 0)
    as (E & r & Hr & Hs & Ht & Hh); [by vm_compute .. |].
  split; [reflexivity |]. split; [exact E |].
  exists r. split; [exact Hr |]. split; [exact Hs |]. split; [exact Ht |].
  split.
  - rewrite (Hh "etag" eq_refl). reflexivity.
  - rewrite (Hh "content-type" eq_refl). reflexivity.
Defined.




(** ** More on the TTL *)

Lemma responseMaxAge_nonneg response n : responseMaxAge response = Some n → 0 ≤ n.
Proof.
  unfold responseMaxAge.
  destruct (toLowerCase <$> Headers_get (resp_headers response) "Cache-Control")
    as [cc |]; [| discriminate].
  destruct (match_max_age cc) as [digits |] eqn:E; [| discriminate].
  destruct (match_max_age_digits _ _ E) as (m & -> & Hm). by intros [= <-].
Qed.

Lemma ttl_with_request_directive v request response x :
  requestMaxAge request = Some x →
  ttl v request response = Some (or_default x (DEFAULT_CACHE_TTL_SECONDS v)).
Proof.
  unfold requestMaxAge, ttl.
  destruct (Headers_get (req_headers request) CACHE_CONTROL_HEADER) as [h |];
    [| discriminate].
  change (ToString (Some h)) with h.
  destruct (startsWith h "max-age=") eqn:Hs; [| discriminate].
  intros [= <-].
  assert (truthy (Some h) = true) as ->; [| reflexivity].
  destruct h; [discriminate | reflexivity].
Qed.

(** X13: the TTL is always a number: whatever the two headers hold, [ttl] is
    never [NaN].  Without a request directive it is moreover non-negative
    (given a non-negative default), because the response's directive admits
    digits only; and whenever [now + TTL * 1000] is computed without
    rounding, the expiration written parses back to that number. *)
Theorem ttl_is_a_number v request response :
  ttl v request response ≠ None ∧
  (requestMaxAge request = None → 0 ≤ DEFAULT_CACHE_TTL_SECONDS v →
   ∀ seconds, ttl v request response = Some seconds → 0 ≤ seconds) ∧
  (∀ seconds now,
     ttl v request response = Some seconds →
     exactExpiration now seconds = true →
     parseInt (expirationString now (ttl v request response))
       = Some (now + seconds * 1000)).
Proof.
  split; [| split].
  - destruct (requestMaxAge request) as [x |] eqn:Hr.
    + by rewrite (ttl_with_request_directive v request response x Hr).
    + by rewrite (ttl_without_request_directive v request response Hr).
  - intros Hr Hd seconds.
    rewrite (ttl_without_request_directive v request response Hr). intros [= <-].
    destruct (responseMaxAge response) as [n |] eqn:E; [| exact Hd].
    by apply responseMaxAge_nonneg in E.
  - intros seconds now -> _. apply parseInt_toString.
Qed.

Lemma ttl_is_a_number_witness :
  parseInt (expirationString sampleNow (ttl cloudflare_cache (getWidget ∅) maxAge120Response))
    = Some (sampleNow + 120 * 1000).
Proof.
  exact (proj2 (proj2 (ttl_is_a_number cloudflare_cache (getWidget ∅) maxAge120Response))
           120 sampleNow eq_refl eq_refl).
Defined.

(** X14: a negative [N] on the request side is taken as it is.  For a safe
    integer [N] below zero the handler stores the entry with the TTL [N];
    with the expiration computed without rounding, its expiration instant
    lies before the time of storing and every later lookup finds it
    expired. *)
Theorem negative_override_is_stored_expired v request response n :
  requestMaxAge request = Some (Some n) →
  n < 0 →
  isSafeInteger n = true →
  ttl v request response = Some n ∧
  ∀ now later, now ≤ later →
    exactExpiration now n = true →
    isSafeInteger later = true →
    isExpired (Some (expirationString now (ttl v request response))) later = true.
Proof.
  intros Hr Hn _.
  assert (ttl v request response = Some n) as E.
  { rewrite (ttl_with_request_directive v request response _ Hr). cbn.
    destruct (n =? 0) eqn:E0; [lia | reflexivity]. }
  split; [exact E |]. intros now later Hl _ _. rewrite E.
  apply isExpired_stored. lia.
Qed.

Lemma negative_override_is_stored_expired_witness :
  requestMaxAge negativeTtlRequest = Some (Some (-5)) ∧
  ttl cloudflare_cache negativeTtlRequest helloResponse = Some (-5) ∧
  isExpired (Some (expirationString sampleNow
                     (ttl cloudflare_cache negativeTtlRequest helloResponse)))
            sampleNow = true.
Proof.
  destruct (negative_override_is_stored_expired cloudflare_cache negativeTtlRequest
              helloResponse (-5)) as [E H]; [reflexivity | reflexivity | reflexivity |].
  split; [reflexivity |]. split; [exact E |]. by apply H.
Defined.

(** ** The request directives *)

Lemma startsWith_max_age_lower h :
  startsWith h "max-age=" = true →
  toLowerCase h ≠ "no-cache" ∧ toLowerCase h ≠ "force-cache".
Proof.
  unfold startsWith. destruct h as [| c h]; [discriminate |].
  cbn [String.prefix]. destruct (ascii_dec "m" c) as [<- | ]; [| discriminate].
  intros _. split; discriminate.
Qed.

(** X15: the three request directives exclude one another, because they are
    read off the one dedicated header: a bypassing request neither forces
    nor carries a TTL, and a forcing request carries no TTL (so a forced
    entry always gets the response's TTL or the default). *)
Theorem directives_exclude_one_another v request response :
  (bypassCache request = true →
   forceCache request = false ∧ requestMaxAge request = None) ∧
  (forceCache request = true →
   bypassCache request = false ∧ requestMaxAge request = None ∧
   ttl v request response =
     Some (default (DEFAULT_CACHE_TTL_SECONDS v) (responseMaxAge response))).
Proof.
  assert (∀ h, Headers_get (req_headers request) CACHE_CONTROL_HEADER = Some h →
               toLowerCase h = "no-cache" ∨ toLowerCase h = "force-cache" →
               requestMaxAge request = None) as Hnone.
  { intros h Hh Hl. unfold requestMaxAge. rewrite Hh.
    destruct (startsWith h "max-age=") eqn:Es; [| reflexivity].
    apply startsWith_max_age_lower in Es as [? ?]. by destruct Hl. }
  unfold bypassCache, forceCache. split.
  - intros Hb%bool_decide_eq_true.
    destruct (Headers_get (req_headers request) CACHE_CONTROL_HEADER) as [h |] eqn:Hh;
      [| discriminate].
    injection Hb as Hb. split; [| by apply (Hnone h); auto].
    apply bool_decide_eq_false. cbn. rewrite Hb. discriminate.
  - intros Hf%bool_decide_eq_true.
    destruct (Headers_get (req_headers request) CACHE_CONTROL_HEADER) as [h |] eqn:Hh;
      [| discriminate].
    injection Hf as Hf.
    assert (requestMaxAge request = None) as Hr by (apply (Hnone h); auto).
    split; [| split; [exact Hr | by apply ttl_without_request_directive]].
    apply bool_decide_eq_false. cbn. rewrite Hf. discriminate.
Qed.

Lemma directives_exclude_one_another_witness :
  forceCache forcedPut = true ∧
  ttl cloudflare_cache forcedPut maxAge120Response = Some 120.
Proof.
  destruct (proj2 (directives_exclude_one_another cloudflare_cache forcedPut
                     maxAge120Response)) as (_ & _ & E); [reflexivity |].
  split; [reflexivity | exact E].
Defined.

(** ** More on hashes and keys *)

Lemma hex_of_byte_unhex (b : byte) :
  ∃ c1 c2, hex_of_byte b = String c1 (String c2 EmptyString) ∧
           unhex_byte c1 c2 = Some b ∧
           isHexChar c1 = true ∧ isHexChar c2 = true.
Proof.
  destruct b; (eexists; eexists; split; [reflexivity | repeat split]).
Qed.

Lemma hex_of_bytes_unhex (bs : list byte) :
  unhex (hex_of_bytes bs) = Some bs ∧
  String.length (hex_of_bytes bs) = (2 * length bs)%nat ∧
  allHex (hex_of_bytes bs) = true.
Proof.
  induction bs as [| b bs (IH1 & IH2 & IH3)]; [by repeat split |].
  cbn [hex_of_bytes].
  destruct (hex_of_byte_unhex b) as (c1 & c2 & -> & Hb & H1 & H2).
  rewrite !app_cons. change ("" +:+ hex_of_bytes bs) with (hex_of_bytes bs).
  cbn [unhex String.length allHex length]. rewrite Hb, IH1, IH2, IH3, H1, H2.
  repeat split. lia.
Qed.

(** X16: the shape of a hash.  For a non-empty buffer [generateHash] gives
    the digest in lower-case hexadecimal, two characters per byte, from
    which the digest can be read back; so two hashes are equal only if the
    digests are, and a hash is never one of the sentinels [emptybody] and
    [readerror]. *)
Theorem generateHash_shape rt (b : byte) (bs : list byte) :
  let h := generateHash rt (data_buffer (b :: bs)) in
  unhex h = Some (SHA256 rt (b :: bs)) ∧
  String.length h = (2 * length (SHA256 rt (b :: bs)))%nat ∧
  allHex h = true ∧
  h ≠ "emptybody" ∧ h ≠ "readerror" ∧
  ∀ b' bs', generateHash rt (data_buffer (b' :: bs')) = h →
            SHA256 rt (b' :: bs') = SHA256 rt (b :: bs).
Proof.
  cbv zeta. rewrite generateHash_nonempty.
  destruct (hex_of_bytes_unhex (SHA256 rt (b :: bs))) as (Hu & Hl & Hh).
  split; [exact Hu |]. split; [exact Hl |]. split; [exact Hh |].
  split; [intros E; by rewrite E in Hu |].
  split; [intros E; by rewrite E in Hu |].
  intros b' bs' E. rewrite generateHash_nonempty in E.
  destruct (hex_of_bytes_unhex (SHA256 rt (b' :: bs'))) as (Hu' & _).
  rewrite E, Hu in Hu'. by injection Hu'.
Qed.

Lemma app_assoc_string (a b c : string) : (a +:+ b) +:+ c = a +:+ (b +:+ c).
Proof. induction a as [| x a IH]; [reflexivity | by rewrite !app_cons, IH]. Qed.

(** X17: for POST requests to one URL the key tells bodies apart exactly
    up to their digest: two such requests get the same key if and only if
    both bodies are unreadable, or both are empty or absent, or both are
    non-empty with the same SHA-256 digest. *)
Theorem post_keys_follow_the_body rt (r1 r2 : Request) :
  req_method r1 = "POST" → req_method r2 = "POST" →
  href (req_url r1) = href (req_url r2) →
  generateCacheKey rt r1 = generateCacheKey rt r2 ↔
  sameBodyClass rt (req_body r1) (req_body r2).
Proof.
  intros H1 H2 Hu. rewrite !generateCacheKey_format, H1, H2, Hu.
  unfold bodyHashSuffix, sameBodyClass. rewrite H1, H2.
  change (String.eqb "POST" "POST") with true. cbv iota.
  assert (∀ bs, hex_of_bytes bs ≠ "readerror") as Hre.
  { intros bs E. destruct (hex_of_bytes_unhex bs) as (Hx & _). by rewrite E in Hx. }
  assert (∀ x y : string,
            ("POST:" +:+ href (req_url r2)) +:+ ":bodyHash=" +:+ x =
            ("POST:" +:+ href (req_url r2)) +:+ ":bodyHash=" +:+ y ↔ x = y) as Hinj.
  { intros x y. split; [| by intros ->].
    intros E. apply (inj (String.app _)) in E. by apply (inj (String.app _)) in E. }
  rewrite Hinj.
  destruct (arrayBuffer (req_body r1)) as [[| x l1] |],
           (arrayBuffer (req_body r2)) as [[| y l2] |]; try done.
  - split; [| done]. intros E. symmetry in E. by apply hex_of_bytes_not_sentinel in E.
  - split; [| done]. intros E. by apply hex_of_bytes_not_sentinel in E.
  - split; [| by intros ->].
    intros E. destruct (hex_of_bytes_unhex (SHA256 rt (x :: l1))) as (Hx & _).
    destruct (hex_of_bytes_unhex (SHA256 rt (y :: l2))) as (Hy & _).
    rewrite E, Hy in Hx. by injection Hx.
  - split; [| done]. intros E. by apply Hre in E.
  - split; [| done]. intros E. symmetry in E. by apply Hre in E.
Qed.

Lemma post_keys_follow_the_body_witness :
  generateCacheKey originDown (postSearch ∅ [x7b; x7d]) ≠
  generateCacheKey originDown (postSearch ∅ []).
Proof.
  intros E.
  exact (proj1 (post_keys_follow_the_body originDown (postSearch ∅ [x7b; x7d])
                  (postSearch ∅ []) eq_refl eq_refl eq_refl) E).
Defined.

Lemma split_at_separator (c : ascii) (m rest : string) :
  hasChar c m = false →
  takeUntil c (m +:+ String c rest) = m ∧
  dropThrough c (m +:+ String c rest) = Some rest.
Proof.
  induction m as [| x m IH]; intros H.
  - change ("" +:+ String c rest) with (String c rest). cbn.
    by rewrite Ascii.eqb_refl.
  - cbn [hasChar] in H. apply orb_false_iff in H as [Hx Hm].
    rewrite app_cons. cbn [takeUntil dropThrough]. rewrite Hx.
    destruct (IH Hm) as [-> ->]. done.
Qed.

Lemma key_determines_method rt (r1 r2 : Request) :
  hasChar ":" (req_method r1) = false →
  hasChar ":" (req_method r2) = false →
  generateCacheKey rt r1 = generateCacheKey rt r2 →
  req_method r1 = req_method r2 ∧
  (req_method r1 ≠ "POST" → href (req_url r1) = href (req_url r2)).
Proof.
  intros H1 H2 E.
  assert (∀ r, generateCacheKey rt r =
               req_method r +:+ String ":" (href (req_url r) +:+ bodyHashSuffix rt r)) as Hk.
  { intros r. rewrite generateCacheKey_format, app_assoc_string. reflexivity. }
  rewrite !Hk in E.
  destruct (split_at_separator ":" (req_method r1)
              (href (req_url r1) +:+ bodyHashSuffix rt r1) H1) as [Ht1 Hd1].
  destruct (split_at_separator ":" (req_method r2)
              (href (req_url r2) +:+ bodyHashSuffix rt r2) H2) as [Ht2 Hd2].
  assert (req_method r1 = req_method r2) as Hm by (rewrite <- Ht1, <- Ht2; by rewrite E).
  split; [exact Hm |]. intros Hne.
  rewrite E, Hd2 in Hd1. injection Hd1 as Hd.
  unfold bodyHashSuffix in Hd. rewrite <- Hm in Hd.
  destruct (String.eqb_spec (req_method r1) "POST"); [done |].
  by rewrite !app_empty_r in Hd.
Qed.

(** X18: keys of different requests.  For methods without a colon (every
    HTTP method), two requests with the same key have the same method; and
    when that method is not POST they have the same URL. *)
Theorem equal_keys_equal_requests rt (r1 r2 : Request) :
  hasChar ":" (req_method r1) = false →
  hasChar ":" (req_method r2) = false →
  generateCacheKey rt r1 = generateCacheKey rt r2 →
  req_method r1 = req_method r2 ∧
  (req_method r1 ≠ "POST" → href (req_url r1) = href (req_url r2)).
Proof. exact (key_determines_method rt r1 r2). Qed.

Lemma equal_keys_equal_requests_witness :
  generateCacheKey originDown (getWidget ∅) ≠
  generateCacheKey originDown (postSearch ∅ []).
Proof.
  intros E.
  destruct (equal_keys_equal_requests originDown (getWidget ∅) (postSearch ∅ [])
              eq_refl eq_refl E) as [Hm _].
  discriminate Hm.
Defined.

(** ** Forced entries *)

Lemma force_excludes_bypass request : forceCache request = true → bypassCache request = false.
Proof.
  unfold forceCache, bypassCache. intros Hf%bool_decide_eq_true.
  apply bool_decide_eq_false. rewrite Hf. discriminate.
Qed.

(** X19: forcing a method other than GET and POST writes an entry that is
    never read.  Such a request, when its answer passes the other checks of
    [shouldCache], issues a put under its key; but no request with that key
    (which starts with the same method) ever looks the bucket up, let alone
    is served from it. *)
Theorem forced_entry_is_never_read v rt env request bucket response bodyText :
  truthy (ORIGIN_API_URL env) = true →
  API_CACHE_BUCKET env = Some bucket →
  isCacheableMethod request = false →
  forceCache request = true →
  hasChar ":" (req_method request) = false →
  let key := generateCacheKey rt request in
  let req := originRequest v env (ToString (ORIGIN_API_URL env)) request in
  origin_fetch rt req = fetch_resolves response →
  shouldCache request response = true →
  text response = Some bodyText →
  (fetch v rt env request).2 =
    [EFetch req;
     EPut key {| cached_body := body_text bodyText; cached_status := status response;
                 cached_headers := resp_headers response |}
          {[ "expiration" := expirationString (now_store rt) (ttl v request response) ]}] ∧
  ∀ v' rt' env' request',
    hasChar ":" (req_method request') = false →
    generateCacheKey rt' request' = key →
    count isGet (fetch v' rt' env' request').2 = 0%nat ∧
    ¬ servedFromCache (fetch v' rt' env' request').
Proof.
  intros Hu Hb Hm Hforce Hcolon key req Ho Hs Ht. split.
  - assert (lookupEligible request = false) as He
      by (unfold lookupEligible; rewrite Hm; apply andb_false_r).
    rewrite (fetch_configured _ _ _ _ _ Hu Hb). cbv zeta. rewrite He. cbn [fst snd app].
    pose proof (forward_trace v rt env (ToString (ORIGIN_API_URL env)) key request) as Hf.
    cbv zeta in Hf. fold req in Hf. rewrite Ho in Hf. fold key. rewrite Hf. cbn [snd].
    unfold cacheStore. by rewrite Hs, Ht, (force_excludes_bypass request Hforce).
  - intros v' rt' env' request' Hcolon' Hkey.
    destruct (key_determines_method rt' request' request Hcolon' Hcolon) as [Hmeth _].
    { rewrite Hkey. unfold key, generateCacheKey, generateHash.
      assert (String.eqb (req_method request) "POST" = false) as ->; [| reflexivity].
      unfold isCacheableMethod in Hm. by apply orb_false_iff in Hm as [_ ?]. }
    assert (isCacheableMethod request' = false) as Hm'
      by (unfold isCacheableMethod; rewrite Hmeth; exact Hm).
    destruct (truthy (ORIGIN_API_URL env')) eqn:Hu';
      [destruct (API_CACHE_BUCKET env') as [bucket' |] eqn:Hb' |].
    + destruct (noncacheable_forwarded v' rt' env' request') as (Hg & Hh & _);
        [split; [done | by rewrite Hb'] | done | by split].
    + destruct (fetch_unconfigured v' rt' env' request') as (r & -> & _ & Hc).
      { intros [_ [? H]]. rewrite Hb' in H. discriminate. }
      split; [reflexivity |]. unfold servedFromCache. cbn [fst]. by rewrite Hc.
    + destruct (fetch_unconfigured v' rt' env' request') as (r & -> & _ & Hc).
      { intros [H _]. rewrite Hu' in H. discriminate. }
      split; [reflexivity |]. unfold servedFromCache. cbn [fst]. by rewrite Hc.
Qed.

Lemma forced_entry_is_never_read_witness :
  let rt := originAnswers helloResponse sampleNow sampleNow in
  let env := sampleEnv emptyBucket in
  let first := fetch cloudflare_cache rt env forcedPut in
  count isPut first.2 = 1%nat ∧
  ¬ servedFromCache
      (fetch cloudflare_cache rt (withBucket env (settle emptyBucket first.2)) forcedPut).
Proof.
  intros rt env first.
  destruct (forced_entry_is_never_read cloudflare_cache rt env forcedPut emptyBucket
              helloResponse "hello") as (E & H); [by vm_compute .. |].
  split.
  - subst first. rewrite E. reflexivity.
  - exact (proj2 (H cloudflare_cache rt (withBucket env (settle emptyBucket first.2))
                    forcedPut eq_refl eq_refl)).
Defined.

(** ** Replaying the background tasks *)

Lemma run_task_get_rejects b e : get_rejects (run_task b e) = get_rejects b.
Proof. by destruct e. Qed.

Lemma bucket_eq (b1 b2 : R2Bucket) :
  objects b1 = objects b2 → get_rejects b1 = get_rejects b2 → b1 = b2.
Proof. destruct b1, b2. cbn. by intros -> ->. Qed.

(** X20: a duplicate of the background work is harmless: running the
    delete and the put of one request a second time leaves the bucket as the
    first time left it. *)
Theorem background_tasks_idempotent v rt env request bucket :
  let tasks := (fetch v rt env request).2 in
  settle (settle bucket tasks) tasks = settle bucket tasks.
Proof.
  cbv zeta.
  destruct (trace_shape v rt env request)
    as [-> | [-> | (pre & post & -> & Hpre & Hpost)]]; [reflexivity | reflexivity |].
  destruct Hpre as [-> | [-> | ->]], Hpost as [-> | (data & metadata & ->)];
    cbn [app settle fold_left run_task]; try reflexivity;
    apply bucket_eq; cbn [objects get_rejects]; try reflexivity.
  - apply insert_insert_eq.
  - apply insert_insert_eq.
  - apply delete_delete_eq.
  - rewrite (insert_delete_eq (<[_:=_]> _)). rewrite insert_insert_eq.
    by rewrite insert_delete_eq.
Qed.
